(** * next-runtime: the request body parser ([src/runtime/body-parser.ts])

    A shallow embedding of [bodyparser] and of the callbacks it registers on
    its two decoders, followed by the properties of the decode operation.

    Conventions.
    - A JavaScript [number] that holds a size or a count is a [Z]; a length
      ([value.length], [data.length]) is a [nat].
    - A JavaScript string is a [string]; [String.length] stands for [.length].
    - An optional property is an [option]; [x || y] and [if (x)] are written
      out with the truthiness of the JavaScript value ([truthy_str],
      [truthy_num]).
    - The external collaborators (the mime matcher [attr-accept], the size
      parser and printer [bytes], [os.tmpdir], [path], [picoid]) and the
      path resolver [setField], whose module is not part of the sources at
      hand, are the fields of the class [Externals]: every statement holds
      whatever they compute. *)

From Stdlib Require Import ZArith String Ascii List Bool Lia DecimalString.
From stdpp Require Import base gmap strings list.

Local Open Scope string_scope.
Local Open Scope list_scope.
Local Open Scope stdpp_scope.
Local Open Scope Z_scope.

#[local] Set Warnings "-register-all".

(** ** JavaScript values and coercions *)

(** [!!s] for a string: the empty string is the only falsy one. *)
Definition truthy_str (s : string) : bool :=
  match s with
  | EmptyString => false
  | String _ _ => true
  end.

(** [!!n] for a number ([NaN] is not a value of the model). *)
Definition truthy_num (n : Z) : bool := negb (n =? 0).

(** [x || undefined] for an optional number. *)
Definition num_or_undefined (x : option Z) : option Z :=
  match x with
  | Some n => if truthy_num n then Some n else None
  | None => None
  end.

(** [!!x] for an optional string property. *)
Definition truthy_opt_str (x : option string) : bool :=
  match x with
  | Some s => truthy_str s
  | None => false
  end.

(** [s.startsWith(t)]: a code-unit-wise, hence case-sensitive, prefix test. *)
Definition startsWith (s t : string) : bool := String.prefix t s.

(** The double quote that the messages put around names. *)
Definition dq : string := String "034"%char EmptyString.

(** [String(n)] of a natural number, as [JSON.parse] names array slots. *)
Definition string_of_index (n : nat) : string :=
  NilZero.string_of_uint (Nat.to_uint n).

(** [String(n)] of an integral number. *)
Definition string_of_num (n : Z) : string :=
  NilZero.string_of_int (Z.to_int n).

(** [`${x}`] of an optional number: [undefined] prints as its name. *)
Definition template_num (x : option Z) : string :=
  match x with
  | Some n => string_of_num n
  | None => "undefined"
  end.

(** [`${x}`] of a string variable that may still be unassigned. *)
Definition template_str (x : option string) : string :=
  match x with
  | Some s => s
  | None => "undefined"
  end.

Definition is_digit (c : ascii) : bool :=
  let n := nat_of_ascii c in (48 <=? n)%nat && (n <=? 57)%nat.

(** [/[0-9]+/.test(key)]: the pattern is not anchored, so it holds as soon
    as one digit occurs anywhere in [key]. *)
Fixpoint has_digits (key : string) : bool :=
  match key with
  | EmptyString => false
  | String c rest => is_digit c || has_digits rest
  end.

(** ** Types of the module *)

(** [type File]; the fields carry a prefix to stay clear of [size]. *)
Record File := mkFile {
  file_name : string;
  file_size : nat;
  file_type : string;
  file_path : option string
}.

(** A size limit is a number of bytes or a string such as [10mb]. *)
Inductive SizeSpec :=
| SizeNum (n : Z)
| SizeStr (s : string).

(** [BodyParserOptions], with [limits] flattened: an absent [options] or an
    absent [limits] reads every property as [undefined], which is the record
    with [None] everywhere. [onFile] tells whether a handler is supplied;
    the calls made to it are journaled in the state. *)
Record BodyParserOptions := mkOptions {
  fileCount : option Z;
  fileSize : option SizeSpec;
  fieldSize : option SizeSpec;
  jsonSize : option SizeSpec;
  mimeType : option string;
  uploadDir : option string;
  onFile : bool
}.

Definition no_options : BodyParserOptions :=
  mkOptions None None None None None None false.

(** An entry of [errors]. *)
Record Violation := mkViolation {
  err_name : string;
  err_message : string
}.

(** [const ACCEPT] *)
Definition ACCEPT : list string :=
  [ "application/json";
    "application/x-www-form-urlencoded";
    "multipart/form-data" ].

(** The two pipelines behind the content-type test of [bodyparser]. *)
Inductive Route :=
| RouteJson
| RouteForm.

(** Lines 95 to 101: the two early [return null] and the choice of the
    pipeline. [None] is the [null] result. *)
Definition route_of (content_type : option string) : option Route :=
  match content_type with
  | None => None
  | Some ct =>
      if negb (truthy_str ct) then None
      else if negb (existsb (startsWith ct) ACCEPT) then None
      else if startsWith ct "application/json" then Some RouteJson
      else Some RouteForm
  end.

(** ** The JSON pipeline *)

(** A parsed JSON value. The members of an object are listed in the order
    in which the engine enumerates its own properties, which is the order
    in which [JSON.parse] revives them. The payload of a number is never
    inspected by the module. *)
Inductive JSON :=
| JNull
| JBool (b : bool)
| JNum (n : Z)
| JStr (s : string)
| JArr (items : list JSON)
| JObj (props : list (string * JSON)).

(** What [bodyParser.json] did with the request before it called back.
    - [JsonParsed v]: the text was within [limit]; it was parsed with
      [JSON.parse(text, reviver)], the result was stored in [req.body] and
      the callback ran without an error.
    - [JsonNotParsed error body]: nothing was parsed, the reviver never ran;
      [error] is [error.type] when the callback received an error ([None]
      when the middleware skipped the request), [body] is [req.body] as the
      middleware left it. *)
Inductive JsonRead :=
| JsonParsed (parsed : JSON)
| JsonNotParsed (error : option string) (body : JSON).

(** ** The form pipeline: what the decoder hands to the callbacks *)

(** [info] of a [file] event. *)
Record FileInfo := mkFileInfo {
  info_filename : string;
  info_mimeType : string
}.

(** [info] of a [field] event. *)
Record FieldInfo := mkFieldInfo {
  nameTruncated : bool;
  valueTruncated : bool
}.

(** A value stored by [setField]: the text of a field or a [File]. *)
Inductive FieldValue :=
| VText (s : string)
| VFile (f : File).

(** The callbacks that run during one decode operation. A file stream is
    named by the number [sid]; the chunk of a [data] event is a [Buffer].
    [EvMkdirDone] is the completion of the awaited [fs.promises.mkdir] of
    the handler of stream [sid]; [EvTimer] is the event loop running the
    next callback queued with [setTimeout(.., 0)]. *)
Inductive Event :=
| EvFile (sid : nat) (field : string) (info : FileInfo)
| EvMkdirDone (sid : nat)
| EvData (sid : nat) (chunk : list Byte.byte)
| EvEnd (sid : nat) (truncated : bool)
| EvField (field value : string) (info : FieldInfo)
| EvFilesLimit
| EvFinish
| EvTimer.

(** The side work started for the file streams, in call order. *)
Inductive Effect :=
| Resume (sid : nat)
| OnFile (field : string) (file : File) (sid : nat)
| Mkdir (dir : string)
| Pipe (sid : nat) (path : string).

(** A part of a form body as the decoder reads it: a text field with the
    truncation flags it reports, or a file with the chunks its stream will
    deliver and the [truncated] flag the stream carries when it ends. *)
Inductive Part :=
| PartField (field value : string) (info : FieldInfo)
| PartFile (field : string) (info : FileInfo)
    (chunks : list (list Byte.byte)) (truncated : bool).

(** A request: the declared content type and the reading each of the two
    external decoders makes of the byte stream. *)
Record Request := mkRequest {
  content_type : option string;
  json_read : JsonRead;
  form_parts : list Part
}.

(** ** External collaborators *)

Class Externals := {
  (** the object built by [setField]; [empty_tree] is the literal [{}] *)
  Tree : Type;
  empty_tree : Tree;
  (** [setField] of [./set-field], a module that is not among the sources
      at hand: a parameter, about which nothing is assumed *)
  setField : Tree -> string -> FieldValue -> Tree;
  (** [accepts(file, pattern)] of [attr-accept] *)
  accepts : File -> string -> bool;
  (** [bytes.parse] on a string *)
  bytes_parse_str : string -> option Z;
  (** [bytes(n)] *)
  bytes_format : Z -> string;
  os_tmpdir : string;
  path_join : string -> string -> string;
  path_basename : string -> string;
  (** the result of the n-th call of [picoid(17)] *)
  picoid : nat -> string
}.

(** ** Limits, normalised once at the start of [bodyparser] *)

Section Limits.
Context `{E : Externals}.

(** [bytes.parse]: a number is returned as it is, a string is parsed. *)
Definition bytes_parse (v : SizeSpec) : option Z :=
  match v with
  | SizeNum n => Some n
  | SizeStr s => bytes_parse_str s
  end.

(** [x || ''] for a size property. *)
Definition size_or_empty (x : option SizeSpec) : SizeSpec :=
  match x with
  | Some (SizeNum n) => if truthy_num n then SizeNum n else SizeStr EmptyString
  | Some (SizeStr s) => SizeStr s
  | None => SizeStr EmptyString
  end.

(** [bytes.parse(x || '') || undefined] *)
Definition parse_limit (x : option SizeSpec) : option Z :=
  num_or_undefined (bytes_parse (size_or_empty x)).

Definition maxFileCount (o : BodyParserOptions) : option Z :=
  num_or_undefined (fileCount o).
Definition maxFileSize (o : BodyParserOptions) : option Z :=
  parse_limit (fileSize o).
Definition maxFieldSize (o : BodyParserOptions) : option Z :=
  parse_limit (fieldSize o).
Definition maxJsonSize (o : BodyParserOptions) : option Z :=
  parse_limit (jsonSize o).

(** [options?.uploadDir || os.tmpdir()] *)
Definition upload_dir (o : BodyParserOptions) : string :=
  match uploadDir o with
  | Some d => if truthy_str d then d else os_tmpdir
  | None => os_tmpdir
  end.

(** [x || 0] *)
Definition or_zero (x : option Z) : Z :=
  match x with
  | Some n => n
  | None => 0
  end.

(** The records pushed on [errors], one definition per [push]. *)

Definition field_size_exceeded (field : string) (limit : Z) : Violation :=
  mkViolation "FIELD_SIZE_EXCEEDED"
    ("field " +:+ dq +:+ field +:+ dq +:+ " exceeds " +:+ bytes_format limit).

Definition json_size_exceeded (o : BodyParserOptions) : Violation :=
  mkViolation "JSON_SIZE_EXCEEDED"
    ("json object exceeds " +:+ bytes_format (or_zero (maxJsonSize o))).

Definition file_type_rejected (value : File) (pattern : string) : Violation :=
  mkViolation "FILE_TYPE_REJECTED"
    ("file " +:+ dq +:+ file_name value +:+ dq +:+ " is not of type "
       +:+ dq +:+ pattern +:+ dq).

Definition file_size_exceeded (o : BodyParserOptions) (value : File)
  : Violation :=
  mkViolation "FILE_SIZE_EXCEEDED"
    ("file " +:+ dq +:+ file_name value +:+ dq +:+ " exceeds "
       +:+ bytes_format (or_zero (maxFileSize o))).

Definition file_count_exceeded (o : BodyParserOptions) : Violation :=
  mkViolation "FILE_COUNT_EXCEEDED"
    ("file count exceeds " +:+ template_num (maxFileCount o)).

End Limits.

(** ** The JSON pipeline: the reviver and the walk of [JSON.parse] *)

Section JsonRoute.
Context `{E : Externals}.

(** The variables the reviver closes over: [lastKey], declared without a
    value, and [errors]. *)
Record Walk := mkWalk {
  lastKey : option string;
  walk_errors : list Violation
}.

(** The arrow function passed as [reviver] (lines 107 to 118). It returns
    [value] as it received it. *)
Definition reviver (limit : Z) (key : string) (value : JSON) (w : Walk)
  : Walk * JSON :=
  let errs :=
    match value with
    | JStr s =>
        if Z.of_nat (String.length s) >? limit then
          let field :=
            if has_digits key
            then template_str (lastKey w) +:+ "." +:+ key
            else key in
          walk_errors w ++ [field_size_exceeded field limit]
        else walk_errors w
    | _ => walk_errors w
    end in
  (mkWalk (if has_digits key then lastKey w else Some key) errs, value).

(** The loop of [InternalizeJSONProperty] over the elements of an array:
    each is revived under the name [String(index)], in order. *)
Definition revive_elements (revive : string -> JSON -> Walk -> Walk * JSON)
  : nat -> list JSON -> Walk -> Walk * list JSON :=
  fix elements (i : nat) (l : list JSON) (w : Walk) : Walk * list JSON :=
    match l with
    | [] => (w, [])
    | x :: rest =>
        let '(w1, x') := revive (string_of_index i) x w in
        let '(w2, rest') := elements (S i) rest w1 in
        (w2, x' :: rest')
    end.

(** The same loop over the members of an object, each revived under its
    key. *)
Definition revive_members (revive : string -> JSON -> Walk -> Walk * JSON)
  : list (string * JSON) -> Walk -> Walk * list (string * JSON) :=
  fix members (l : list (string * JSON)) (w : Walk)
    : Walk * list (string * JSON) :=
    match l with
    | [] => (w, [])
    | (k, x) :: rest =>
        let '(w1, x') := revive k x w in
        let '(w2, rest') := members rest w1 in
        (w2, (k, x') :: rest')
    end.

(** [InternalizeJSONProperty] of [JSON.parse]: the elements of an array and
    the members of an object are revived first; the value that holds them
    is revived after them, under its own name. *)
Fixpoint internalize (limit : Z) (key : string) (val : JSON) (w : Walk)
  {struct val} : Walk * JSON :=
  match val with
  | JArr items =>
      let '(w', items') :=
        revive_elements (internalize limit) 0%nat items w in
      reviver limit key (JArr items') w'
  | JObj props =>
      let '(w', props') := revive_members (internalize limit) props w in
      reviver limit key (JObj props') w'
  | _ => reviver limit key val w
  end.

(** [JSON.parse(text, reviver)] on the parsed value: the root is revived
    under the empty name. Without a field size limit no reviver is passed
    and nothing is walked. Returns the entries of [errors] and [req.body]. *)
Definition json_parse (o : BodyParserOptions) (parsed : JSON)
  : list Violation * JSON :=
  match maxFieldSize o with
  | Some limit =>
      let '(w, v) := internalize limit EmptyString parsed (mkWalk None []) in
      (walk_errors w, v)
  | None => ([], parsed)
  end.

End JsonRoute.

(** ** The form pipeline: the coordinator around the form decoder *)

Section FormRoute.
Context `{E : Externals}.

(** The value a decode operation is settled with. [Success] is the promise
    resolved with the body, [Failure] the promise rejected with
    [{ errors }]. *)
Inductive Body :=
| BodyJson (v : JSON)
| BodyForm (t : Tree).

Inductive Outcome :=
| Success (body : Body)
| Failure (errs : list Violation).

(** The result of [bodyparser]: [Skip] is the promise resolved with [null];
    [Pending] is a promise that was never settled. *)
Inductive Result :=
| Skip
| Settled (o : Outcome)
| Pending.

(** What the callbacks of one form decode operation share.
    - [errors], [data]: the two locals of that name;
    - [listeners]: the streams on which the [data] and [end] listeners are
      registered, each with the [field] and [value] its listeners close
      over;
    - [awaiting]: the [file] handlers suspended at [await mkdir], with the
      same two locals;
    - [effects]: the side work started so far;
    - [ids]: how many times [picoid] was called;
    - [timers]: how many [setTimeout] callbacks are queued;
    - [req_body]: [req.body], once assigned;
    - [settled]: the state of the promise. *)
Record State := mkState {
  errors : list Violation;
  data : Tree;
  listeners : gmap nat (string * File);
  awaiting : gmap nat (string * File);
  effects : list Effect;
  ids : nat;
  timers : nat;
  req_body : option Tree;
  settled : option Outcome
}.

Definition init_state : State :=
  mkState [] empty_tree ∅ ∅ [] 0%nat 0%nat None None.

(** [errors.push(v)] *)
Definition push_error (v : Violation) (st : State) : State :=
  mkState (errors st ++ [v]) (data st) (listeners st) (awaiting st)
    (effects st) (ids st) (timers st) (req_body st) (settled st).

(** [setField(data, field, value)] *)
Definition assign (field : string) (value : FieldValue) (st : State) : State :=
  mkState (errors st) (setField (data st) field value) (listeners st)
    (awaiting st) (effects st) (ids st) (timers st) (req_body st) (settled st).

Definition set_listeners (l : gmap nat (string * File)) (st : State) : State :=
  mkState (errors st) (data st) l (awaiting st) (effects st) (ids st)
    (timers st) (req_body st) (settled st).

Definition set_awaiting (a : gmap nat (string * File)) (st : State) : State :=
  mkState (errors st) (data st) (listeners st) a (effects st) (ids st)
    (timers st) (req_body st) (settled st).

Definition do_effect (e : Effect) (st : State) : State :=
  mkState (errors st) (data st) (listeners st) (awaiting st)
    (effects st ++ [e]) (ids st) (timers st) (req_body st) (settled st).

Definition next_id (st : State) : State :=
  mkState (errors st) (data st) (listeners st) (awaiting st) (effects st)
    (S (ids st)) (timers st) (req_body st) (settled st).

Definition set_timers (n : nat) (st : State) : State :=
  mkState (errors st) (data st) (listeners st) (awaiting st) (effects st)
    (ids st) n (req_body st) (settled st).

Definition set_req_body (t : Tree) (st : State) : State :=
  mkState (errors st) (data st) (listeners st) (awaiting st) (effects st)
    (ids st) (timers st) (Some t) (settled st).

(** [resolve] and [reject] of the promise: the first call settles it, the
    later ones do nothing. *)
Definition settle (out : Outcome) (st : State) : State :=
  match settled st with
  | Some _ => st
  | None =>
      mkState (errors st) (data st) (listeners st) (awaiting st) (effects st)
        (ids st) (timers st) (req_body st) (Some out)
  end.

(** [file.on('data', ..)] and [file.on('end', ..)] *)
Definition listen (sid : nat) (field : string) (value : File) (st : State)
  : State :=
  set_listeners (<[sid := (field, value)]> (listeners st)) st.

(** [maxFileCount || options?.uploadDir || options?.onFile]: the test that
    guards the registration of the [file] handler. *)
Definition has_file_handler (o : BodyParserOptions) : bool :=
  match maxFileCount o with
  | Some _ => true
  | None => truthy_opt_str (uploadDir o) || onFile o
  end.

(** [limits.mimeType && !accepts(value, limits.mimeType)] *)
Definition mime_rejected (o : BodyParserOptions) (value : File) : bool :=
  match mimeType o with
  | Some pattern => truthy_str pattern && negb (accepts value pattern)
  | None => false
  end.

(** The [file] handler, up to its [await] (lines 155 to 177). *)
Definition on_file (o : BodyParserOptions) (sid : nat) (field : string)
  (info : FileInfo) (st : State) : State :=
  let value := mkFile (info_filename info) 0%nat (info_mimeType info) None in
  if negb (truthy_str (file_name value)) then do_effect (Resume sid) st
  else if mime_rejected o value then
    do_effect (Resume sid)
      (push_error (file_type_rejected value (template_str (mimeType o))) st)
  else if onFile o then
    listen sid field value (do_effect (OnFile field value sid) st)
  else
    set_awaiting (<[sid := (field, value)]> (awaiting st))
      (do_effect (Mkdir (upload_dir o)) st).

(** The same handler after its [await] (lines 178 to 200). *)
Definition on_mkdir_done (o : BodyParserOptions) (sid : nat) (st : State)
  : State :=
  match awaiting st !! sid with
  | Some (field, value) =>
      let p := path_join (upload_dir o)
                 (path_basename field +:+ "_" +:+ picoid (ids st)) in
      let value' :=
        mkFile (file_name value) (file_size value) (file_type value) (Some p) in
      listen sid field value'
        (do_effect (Pipe sid p)
           (next_id (set_awaiting (delete sid (awaiting st)) st)))
  | None => st
  end.

(** The [data] listener: [value.size = data.length]. *)
Definition on_data (sid : nat) (chunk : list Byte.byte) (st : State) : State :=
  match listeners st !! sid with
  | Some (field, value) =>
      let value' :=
        mkFile (file_name value) (length chunk) (file_type value)
          (file_path value) in
      set_listeners (<[sid := (field, value')]> (listeners st)) st
  | None => st
  end.

(** The [end] listener; [truncated] is [file.truncated] at that moment. *)
Definition on_end (o : BodyParserOptions) (sid : nat) (truncated : bool)
  (st : State) : State :=
  match listeners st !! sid with
  | Some (field, value) =>
      if truncated then push_error (file_size_exceeded o value) st
      else assign field (VFile value) st
  | None => st
  end.

(** The [field] handler. *)
Definition on_field (o : BodyParserOptions) (field value : string)
  (info : FieldInfo) (st : State) : State :=
  if nameTruncated info || valueTruncated info then
    push_error (field_size_exceeded field (or_zero (maxFieldSize o))) st
  else assign field (VText value) st.

(** The [filesLimit] handler. *)
Definition on_filesLimit (o : BodyParserOptions) (st : State) : State :=
  push_error (file_count_exceeded o) st.

(** The [finish] handler. *)
Definition on_finish (st : State) : State :=
  match errors st with
  | _ :: _ => settle (Failure (errors st)) st
  | [] => set_timers (S (timers st)) (set_req_body (data st) st)
  end.

(** The callback given to [setTimeout]: [resolve(data)]. *)
Definition on_timer (st : State) : State :=
  match timers st with
  | O => st
  | S n => settle (Success (BodyForm (data st))) (set_timers n st)
  end.

(** One callback runs to completion. A [file] event finds a handler only
    when one was registered; the events of a stream reach the listeners
    registered on it, if any. *)
Definition step (o : BodyParserOptions) (st : State) (ev : Event) : State :=
  match ev with
  | EvFile sid field info =>
      if has_file_handler o then on_file o sid field info st else st
  | EvMkdirDone sid => on_mkdir_done o sid st
  | EvData sid chunk => on_data sid chunk st
  | EvEnd sid truncated => on_end o sid truncated st
  | EvField field value info => on_field o field value info st
  | EvFilesLimit => on_filesLimit o st
  | EvFinish => on_finish st
  | EvTimer => on_timer st
  end.

Definition run (o : BodyParserOptions) (evs : list Event) (st : State)
  : State :=
  fold_left (step o) evs st.

End FormRoute.

(** ** The form decoder and the entry point *)

Section Decoder.
Context `{E : Externals}.

(** The counters of the form decoder created at lines 142 to 149: the file
    parts counted so far against [limits.files], whether [filesLimit] was
    already emitted, and the number of streams created. *)
Record Decoder := mkDecoder {
  files : nat;
  hitFilesLimit : bool;
  streams : nat
}.

(** The decoder received [files: maxFileCount]; without a number it has no
    ceiling. *)
Definition at_files_limit (o : BodyParserOptions) (d : Decoder) : bool :=
  match maxFileCount o with
  | Some n => Z.of_nat (files d) =? n
  | None => false
  end.

(** The callbacks of one file part whose stream was handed to the [file]
    handler: the handler, the completion of its [mkdir] when it waits for
    one, the chunks, the end of the stream. *)
Definition feed_file (o : BodyParserOptions) (sid : nat) (field : string)
  (info : FileInfo) (chunks : list (list Byte.byte)) (truncated : bool)
  (st : State) : State :=
  let st1 := step o st (EvFile sid field info) in
  let st2 :=
    match awaiting st1 !! sid with
    | Some _ => step o st1 (EvMkdirDone sid)
    | None => st1
    end in
  let st3 := fold_left (fun s c => step o s (EvData sid c)) chunks st2 in
  step o st3 (EvEnd sid truncated).

(** The form decoder driving the callbacks over the parts of a body, one
    part after the other. A part that declares a file is counted against
    the ceiling before anything else is looked at: once the ceiling is
    reached, [filesLimit] is emitted (once) and the part is skipped; below
    it the part is counted, whatever its filename (the source says so of
    [limits.fileCount]: empty file fields still count against the file
    count limit), and it is skipped when no [file] handler is registered. *)
Fixpoint busboy_feed (o : BodyParserOptions) (parts : list Part)
  (d : Decoder) (st : State) : State :=
  match parts with
  | [] => st
  | PartField field value info :: rest =>
      busboy_feed o rest d (step o st (EvField field value info))
  | PartFile field info chunks truncated :: rest =>
      if at_files_limit o d then
        busboy_feed o rest (mkDecoder (files d) true (streams d))
          (if hitFilesLimit d then st else step o st EvFilesLimit)
      else if has_file_handler o then
        busboy_feed o rest
          (mkDecoder (S (files d)) (hitFilesLimit d) (S (streams d)))
          (feed_file o (streams d) field info chunks truncated st)
      else
        busboy_feed o rest
          (mkDecoder (S (files d)) (hitFilesLimit d) (streams d)) st
  end.

(** The event loop after [finish]: the queued timers run. *)
Definition run_timers (o : BodyParserOptions) (st : State) : State :=
  Nat.iter (timers st) (fun s => step o s EvTimer) st.

(** The state of the coordinator when the decoder emits [finish]. *)
Definition form_open (o : BodyParserOptions) (parts : list Part) : State :=
  busboy_feed o parts (mkDecoder 0 false 0) init_state.

(** Lines 141 to 236: [req.pipe(busboy)] up to the settlement. *)
Definition form_route (o : BodyParserOptions) (parts : list Part) : State :=
  run_timers o (step o (form_open o parts) EvFinish).

(** Lines 104 to 129: [errors] and [req.body] when the callback given to
    [jsonParser] reaches its test of [errors.length]. *)
Definition json_callback (o : BodyParserOptions) (jr : JsonRead)
  : list Violation * JSON :=
  let '(errs, body, error) :=
    match jr with
    | JsonParsed parsed =>
        let '(errs, body) := json_parse o parsed in (errs, body, None)
    | JsonNotParsed error body => ([], body, error)
    end in
  match error with
  | Some type =>
      if String.eqb type "entity.too.large"
      then (errs ++ [json_size_exceeded o], body)
      else (errs, body)
  | None => (errs, body)
  end.

(** Lines 131 to 135: [reject({ errors })] or [resolve(req.body)]. *)
Definition json_route (o : BodyParserOptions) (jr : JsonRead) : Outcome :=
  let '(errs, body) := json_callback o jr in
  match errs with
  | _ :: _ => Failure errs
  | [] => Success (BodyJson body)
  end.

(** [bodyparser] *)
Definition bodyparser (req : Request) (o : BodyParserOptions) : Result :=
  match route_of (content_type req) with
  | None => Skip
  | Some RouteJson => Settled (json_route o (json_read req))
  | Some RouteForm =>
      match settled (form_route o (form_parts req)) with
      | Some out => Settled out
      | None => Pending
      end
  end.

End Decoder.

(** ** Vocabulary of the statements *)

(** The two callbacks that call [resolve] or [reject]. *)
Definition is_closing (ev : Event) : bool :=
  match ev with
  | EvFinish | EvTimer => true
  | _ => false
  end.

Definition is_text_field (p : Part) : bool :=
  match p with
  | PartField _ _ _ => true
  | PartFile _ _ _ _ => false
  end.

(** The text fields of a body, in order. *)
Definition text_fields (parts : list Part) : list Part :=
  filter (fun p => is_text_field p = true) parts.

Definition is_truncated_field (p : Part) : bool :=
  match p with
  | PartField _ _ info => nameTruncated info || valueTruncated info
  | PartFile _ _ _ _ => false
  end.

(** The tree that holds the text fields of a body that came whole, each
    assigned in order, and nothing else. *)
Definition assign_text_fields `{E : Externals} (parts : list Part) (t : Tree)
  : Tree :=
  fold_left
    (fun t p =>
       match p with
       | PartField field value info =>
           if nameTruncated info || valueTruncated info then t
           else setField t field (VText value)
       | PartFile _ _ _ _ => t
       end)
    parts t.

(** The violations of the text fields of a body that came truncated, in
    order. *)
Definition field_violations `{E : Externals} (o : BodyParserOptions)
  (parts : list Part) : list Violation :=
  flat_map
    (fun p =>
       match p with
       | PartField field _ info =>
           if nameTruncated info || valueTruncated info
           then [field_size_exceeded field (or_zero (maxFieldSize o))]
           else []
       | PartFile _ _ _ _ => []
       end)
    parts.

(** [value] with [value.size] set to [n]. *)
Definition with_size (value : File) (n : nat) : File :=
  mkFile (file_name value) n (file_type value) (file_path value).

(** The string leaves of a parsed value that are longer than [limit]. *)
Fixpoint oversized_leaves (limit : Z) (v : JSON) : nat :=
  match v with
  | JStr s => if Z.of_nat (String.length s) >? limit then 1%nat else 0%nat
  | JArr items => list_sum (map (oversized_leaves limit) items)
  | JObj props => list_sum (map (fun kv => oversized_leaves limit (snd kv)) props)
  | _ => 0%nat
  end.

(** What a walk of [v] does to the variables of the reviver: the value
    comes back as it was, and one [FIELD_SIZE_EXCEEDED] is appended for
    each string leaf longer than the limit. *)
Definition walk_records (limit : Z) (revive : Walk -> Walk * JSON)
  (v : JSON) (n : nat) : Prop :=
  forall w,
    snd (revive w) = v /\
    exists more,
      walk_errors (fst (revive w)) = walk_errors w ++ more /\
      length more = n /\
      Forall (fun e => err_name e = "FIELD_SIZE_EXCEEDED") more.

(** The stream an event belongs to, if any. *)
Definition stream_of (ev : Event) : option nat :=
  match ev with
  | EvFile sid _ _ | EvMkdirDone sid | EvData sid _ | EvEnd sid _ => Some sid
  | EvField _ _ _ | EvFilesLimit | EvFinish | EvTimer => None
  end.

(** The side work that touches the file system. *)
Definition writes_to_disk (e : Effect) : bool :=
  match e with
  | Mkdir _ | Pipe _ _ => true
  | Resume _ | OnFile _ _ _ => false
  end.

(** A state in which nothing was written and nothing is about to be. *)
Definition keeps_off_disk `{E : Externals} (st : State) : Prop :=
  Forall (fun e => writes_to_disk e = false) (effects st) /\
  awaiting st = ∅ /\ ids st = 0%nat.

(** The length of the last of [chunks], or [size] when there is none. *)
Definition last_chunk_size (chunks : list (list Byte.byte)) (size : nat)
  : nat :=
  List.last (map (fun c : list Byte.byte => length c) chunks) size.

(** The callbacks of one file stream, from the [file] event to its end,
    for a handler that does not wait ([plain]) and for one that waits for
    its directory ([stored]). *)
Definition file_trace (sid : nat) (field : string) (info : FileInfo)
  (chunks : list (list Byte.byte)) (truncated : bool) : list Event :=
  EvFile sid field info :: map (EvData sid) chunks ++ [EvEnd sid truncated].

Definition stored_file_trace (sid : nat) (field : string) (info : FileInfo)
  (chunks : list (list Byte.byte)) (truncated : bool) : list Event :=
  EvFile sid field info :: EvMkdirDone sid
    :: map (EvData sid) chunks ++ [EvEnd sid truncated].

(** A parsed value made of objects whose keys hold no digit, without
    arrays. *)
Fixpoint plain_keys (v : JSON) : bool :=
  match v with
  | JArr _ => false
  | JObj props =>
      forallb (fun kv => negb (has_digits (fst kv)) && plain_keys (snd kv))
        props
  | _ => true
  end.

(** One violation for each string leaf longer than [limit], in the order
    of the text, each under the key of the member that holds the leaf. *)
Fixpoint named_violations `{E : Externals} (limit : Z) (key : string)
  (v : JSON) : list Violation :=
  match v with
  | JStr s =>
      if Z.of_nat (String.length s) >? limit
      then [field_size_exceeded key limit]
      else []
  | JObj props =>
      flat_map (fun kv => named_violations limit (fst kv) (snd kv)) props
  | _ => []
  end.








(** [o] with another [limits.jsonSize]. *)
Definition with_jsonSize (o : BodyParserOptions) (size : option SizeSpec)
  : BodyParserOptions :=
  mkOptions (fileCount o) (fileSize o) (fieldSize o) size (mimeType o)
    (uploadDir o) (onFile o).

(** Induction on a parsed value reaches inside arrays and objects. *)

Section JsonInduction.
Variable P : JSON -> Prop.
Hypothesis Hnull : P JNull.
Hypothesis Hbool : forall b, P (JBool b).
Hypothesis Hnum : forall n, P (JNum n).
Hypothesis Hstr : forall s, P (JStr s).
Hypothesis Harr : forall items, Forall P items -> P (JArr items).
Hypothesis Hobj : forall props, Forall (fun kv => P (snd kv)) props ->
                                P (JObj props).

(** Induction on a JSON value, with the hypothesis for every element of an
    array and every member of an object. *)
Fixpoint JSON_nested_ind (v : JSON) : P v :=
  match v with
  | JNull => Hnull
  | JBool b => Hbool b
  | JNum n => Hnum n
  | JStr s => Hstr s
  | JArr items =>
      Harr items
        ((fix all (l : list JSON) : Forall P l :=
            match l with
            | [] => List.Forall_nil P
            | x :: rest => List.Forall_cons P x rest (JSON_nested_ind x) (all rest)
            end) items)
  | JObj props =>
      Hobj props
        ((fix all (l : list (string * JSON))
            : Forall (fun kv => P (snd kv)) l :=
            match l with
            | [] => List.Forall_nil _
            | kv :: rest =>
                List.Forall_cons (fun kv => P (snd kv)) kv rest
                  (JSON_nested_ind (snd kv)) (all rest)
            end) props)
  end.

End JsonInduction.

(** ** An instance of the collaborators, to run the module on requests

    The resolver of this instance journals the assignments in call order;
    the matcher accepts a file whose declared type is the pattern. *)

Definition journal_setField (t : list (string * FieldValue)) (field : string)
  (value : FieldValue) : list (string * FieldValue) :=
  t ++ [(field, value)].

Definition journal : Externals :=
  {| Tree := list (string * FieldValue);
     empty_tree := [];
     setField := journal_setField;
     accepts := fun f pattern => String.eqb (file_type f) pattern;
     bytes_parse_str := fun _ => None;
     bytes_format := fun n => string_of_num n +:+ "B";
     os_tmpdir := "/tmp";
     path_join := fun a b => a +:+ "/" +:+ b;
     path_basename := fun s => s;
     picoid := string_of_index |}.

(** Requests and options to run the module on. *)

Definition limit_fields_5 : BodyParserOptions :=
  mkOptions None None (Some (SizeNum 5)) None None None false.

Definition one_file_at_most : BodyParserOptions :=
  mkOptions (Some 1) None None None None None false.

Definition hand_over : BodyParserOptions :=
  mkOptions None None None None None None true.

Definition only_png : BodyParserOptions :=
  mkOptions None None None None (Some "image/png") None true.

Definition text_file : FileInfo := mkFileInfo "a.txt" "text/plain".

Definition unnamed_file : FileInfo :=
  mkFileInfo EmptyString "application/octet-stream".

Definition two_bytes : list Byte.byte := [Byte.x68; Byte.x69].

Definition one_byte : list Byte.byte := [Byte.x21].

Definition whole : FieldInfo := mkFieldInfo false false.

Definition cut : FieldInfo := mkFieldInfo false true.

Definition ten_x : string := "xxxxxxxxxx".

(** * Properties *)

Section Properties.
Context `{E : Externals}.

(** ** The callbacks, one step at a time *)

Ltac callbacks :=
  unfold step, on_file, on_mkdir_done, on_data, on_end, on_field,
    on_filesLimit, on_finish, on_timer, listen, settle in *.

Ltac split_cases :=
  repeat match goal with
    | |- context [match ?x with _ => _ end] => destruct x eqn:?
    end.

(** Only [finish] and the timer touch the promise and the timer queue. *)
Lemma step_keeps_promise (o : BodyParserOptions) (st : State) (ev : Event) :
  is_closing ev = false ->
  settled (step o st ev) = settled st /\ timers (step o st ev) = timers st.
Proof.
  intros Hev. destruct ev; try discriminate Hev; callbacks;
    split_cases; simpl; auto.
Qed.

(** [errors] is append-only: a callback leaves the entries in place. *)
Lemma step_appends (o : BodyParserOptions) (st : State) (ev : Event) :
  exists more, errors (step o st ev) = errors st ++ more.
Proof.
  destruct ev; callbacks; split_cases; simpl;
    first [ by exists [] ; rewrite app_nil_r | by eexists ].
Qed.

(** A settled promise stays as it is. *)
Lemma step_settled_once (o : BodyParserOptions) (st : State) (ev : Event)
  (out : Outcome) :
  settled st = Some out -> settled (step o st ev) = Some out.
Proof.
  intros Hs. destruct ev; callbacks; split_cases; simpl in *; congruence.
Qed.

Lemma run_keeps_promise (o : BodyParserOptions) (evs : list Event) :
  forall st,
    forallb (fun ev => negb (is_closing ev)) evs = true ->
    settled (run o evs st) = settled st /\ timers (run o evs st) = timers st.
Proof.
  induction evs as [|ev evs IH]; intros st Hall; simpl in *; [auto|].
  apply andb_prop in Hall as [Hev Hall].
  apply negb_true_iff in Hev.
  destruct (step_keeps_promise o st ev Hev) as [Hs Ht].
  destruct (IH (step o st ev) Hall) as [Hs' Ht'].
  unfold run in *. split; congruence.
Qed.

(** ** The decoder's schedule *)

(** What every callback other than [finish] and the timer preserves is
    preserved by the decoder as it walks a body. *)
Lemma busboy_feed_invariant (P : State -> Prop) (o : BodyParserOptions) :
  (forall st ev, is_closing ev = false -> P st -> P (step o st ev)) ->
  forall parts d st, P st -> P (busboy_feed o parts d st).
Proof.
  intros Hstep.
  induction parts as [|p parts IH]; intros d st HP; cbn [busboy_feed]; auto.
  destruct p as [field value info | field info chunks truncated].
  - apply IH. by apply Hstep.
  - destruct (at_files_limit o d).
    + apply IH. destruct (hitFilesLimit d); [done | by apply Hstep].
    + destruct (has_file_handler o); apply IH; [|done].
      unfold feed_file. apply Hstep; [done|].
      assert (Hfold : forall cs s, P s ->
        P (fold_left (fun s c => step o s (EvData (streams d) c)) cs s)).
      { induction cs as [|c cs IHc]; intros s Hs; cbn [fold_left]; [done|].
        apply IHc. by apply Hstep. }
      apply Hfold.
      destruct (awaiting (step o st (EvFile (streams d) field info)) !! streams d);
        repeat (apply Hstep; [done|]); done.
Qed.

(** When the decoder emits [finish] the promise is pending and no timer is
    queued. *)
Lemma form_open_pending (o : BodyParserOptions) (parts : list Part) :
  settled (form_open o parts) = None /\ timers (form_open o parts) = 0%nat.
Proof.
  unfold form_open.
  apply (busboy_feed_invariant
           (fun st => settled st = None /\ timers st = 0%nat)); [|done].
  intros st ev Hev [Hs Ht].
  destruct (step_keeps_promise o st ev Hev). split; congruence.
Qed.

(** [finish] and the turn of the timers, from a pending promise. *)
Lemma finish_then_timers (o : BodyParserOptions) (st : State) :
  settled st = None -> timers st = 0%nat ->
  settled (run_timers o (step o st EvFinish)) =
    Some match errors st with
         | [] => Success (BodyForm (data st))
         | _ :: _ => Failure (errors st)
         end.
Proof.
  intros Hs Ht. unfold run_timers. simpl. unfold on_finish.
  destruct (errors st) eqn:He; simpl.
  - rewrite Ht. simpl. unfold on_timer, settle. simpl. by rewrite Hs.
  - unfold settle. rewrite Hs. simpl. rewrite Ht. done.
Qed.

(** ** The outcome of a decode operation *)

(** C1. A decode operation, on the JSON route as on the form route, is
    settled with [Failure] carrying exactly the violations recorded during
    the operation when there is at least one, and with [Success] carrying
    the body otherwise. [Failure] holds the violations and nothing else: no
    field or file reaches the caller once a violation was recorded. On the
    JSON route the violations and the body are those the callback of the
    JSON decoder sees; on the form route they are [errors] and [data] when
    the decoder emits [finish]. *)
Theorem decode_outcome_by_violations (req : Request) (o : BodyParserOptions) :
  (route_of (content_type req) = Some RouteJson ->
     let errs := (json_callback o (json_read req)).1 in
     let body := (json_callback o (json_read req)).2 in
     (errs = [] -> bodyparser req o = Settled (Success (BodyJson body))) /\
     (errs <> [] -> bodyparser req o = Settled (Failure errs)))
  /\
  (route_of (content_type req) = Some RouteForm ->
     let st := form_open o (form_parts req) in
     (errors st = [] ->
        bodyparser req o = Settled (Success (BodyForm (data st)))) /\
     (errors st <> [] -> bodyparser req o = Settled (Failure (errors st)))).
Proof.
  split; intros Hroute; unfold bodyparser; rewrite Hroute.
  - unfold json_route.
    destruct (json_callback o (json_read req)) as [errs body]; simpl.
    split; intros Herrs.
    + by subst errs.
    + by destruct errs.
  - unfold form_route.
    destruct (form_open_pending o (form_parts req)) as [Hs Ht].
    rewrite (finish_then_timers o _ Hs Ht).
    split; intros Herrs.
    + by rewrite Herrs.
    + by destruct (errors (form_open o (form_parts req))).
Qed.

(** ** The content-type dispatcher *)

Lemma route_of_some (ct : string) :
  route_of (Some ct) =
    if String.prefix "application/json" ct then Some RouteJson
    else if String.prefix "application/x-www-form-urlencoded" ct
         || String.prefix "multipart/form-data" ct
    then Some RouteForm
    else None.
Proof.
  unfold route_of, startsWith. cbn [existsb ACCEPT].
  destruct ct as [|c ct]; [reflexivity|]. cbn [truthy_str negb].
  destruct (String.prefix "application/json" (String c ct));
    cbn [orb negb]; [reflexivity|].
  rewrite orb_false_r.
  by destruct (_ || _).
Qed.

(** C2. The dispatcher knows three content types and tests each as a
    prefix of the declared [Content-Type], code unit by code unit: the
    result is [Skip] (the promise resolved with [null]) exactly when the
    header is absent or none of the three is a prefix of it. A header that
    starts with [application/json] takes the JSON route, one that starts
    with one of the two others the form route, and neither route can end
    in [Skip]. *)
Theorem dispatch_skip_iff (req : Request) (o : BodyParserOptions) :
  (bodyparser req o = Skip <->
   forall ct, content_type req = Some ct ->
     String.prefix "application/json" ct = false /\
     String.prefix "application/x-www-form-urlencoded" ct = false /\
     String.prefix "multipart/form-data" ct = false)
  /\
  (forall ct, content_type req = Some ct ->
     String.prefix "application/json" ct = true ->
     bodyparser req o = Settled (json_route o (json_read req)))
  /\
  (forall ct, content_type req = Some ct ->
     String.prefix "application/json" ct = false ->
     String.prefix "application/x-www-form-urlencoded" ct
       || String.prefix "multipart/form-data" ct = true ->
     exists out,
       settled (form_route o (form_parts req)) = Some out /\
       bodyparser req o = Settled out).
Proof.
  unfold bodyparser. destruct (content_type req) as [ct|] eqn:Hct.
  2:{ split; [|split]; try discriminate. simpl. split; [by intros _ ct [=] | done]. }
  rewrite route_of_some. split; [|split].
  - destruct (String.prefix "application/json" ct) eqn:Hj.
    { split; [discriminate|]. intros H. destruct (H ct eq_refl). congruence. }
    destruct (String.prefix "application/x-www-form-urlencoded" ct) eqn:Hu;
      destruct (String.prefix "multipart/form-data" ct) eqn:Hm; cbn [orb].
    4:{ split; [|done]. intros _ ct' [= <-]. by rewrite Hu, Hm. }
    all: split;
      [ by destruct (settled _)
      | intros H; destruct (H ct eq_refl) as (_ & ? & ?); congruence ].
  - intros ct' [= <-] Hj. by rewrite Hj.
  - intros ct' [= <-] Hj Hor. rewrite Hj, Hor.
    unfold form_route.
    destruct (form_open_pending o (form_parts req)) as [Hs Ht].
    rewrite (finish_then_timers o _ Hs Ht). by eexists.
Qed.

(** ** Truncated fields and files *)

(** C3. The [end] listener of a file stream, which is the callback behind
    a file-part-end event, appends one [FILE_SIZE_EXCEEDED] violation and
    leaves the tree alone when the stream was truncated, and assigns the
    descriptor at the field's path otherwise. The [field] handler does the
    same with [FIELD_SIZE_EXCEEDED] for a field whose name or value was
    truncated. No callback changes the tree except these two on a part
    that came whole, so a truncated field or file is never in the tree. *)
Theorem truncated_parts_are_dropped (o : BodyParserOptions) (st : State) :
  (forall sid field value,
     listeners st !! sid = Some (field, value) ->
     (let st' := step o st (EvEnd sid true) in
      errors st' = errors st ++ [file_size_exceeded o value] /\
      err_name (file_size_exceeded o value) = "FILE_SIZE_EXCEEDED" /\
      data st' = data st) /\
     (let st' := step o st (EvEnd sid false) in
      errors st' = errors st /\
      data st' = setField (data st) field (VFile value)))
  /\
  (forall field value info,
     let st' := step o st (EvField field value info) in
     let v := field_size_exceeded field (or_zero (maxFieldSize o)) in
     (nameTruncated info || valueTruncated info = true ->
      errors st' = errors st ++ [v] /\
      err_name v = "FIELD_SIZE_EXCEEDED" /\
      data st' = data st) /\
     (nameTruncated info || valueTruncated info = false ->
      errors st' = errors st /\
      data st' = setField (data st) field (VText value)))
  /\
  (forall ev,
     data (step o st ev) <> data st ->
     (exists field value info,
        ev = EvField field value info /\
        nameTruncated info || valueTruncated info = false) \/
     (exists sid, ev = EvEnd sid false)).
Proof.
  split; [|split].
  - intros sid field value Hl. cbn [step]. unfold on_end. rewrite Hl.
    by repeat split.
  - intros field value info. cbn [step]. unfold on_field.
    split; intros ->; by repeat split.
  - intros ev Hdata. destruct ev; callbacks.
    all: try (exfalso; apply Hdata; clear Hdata; split_cases; reflexivity).
    + destruct truncated; [|by right; eexists].
      exfalso. apply Hdata. by split_cases.
    + destruct (nameTruncated info || valueTruncated info) eqn:Ht.
      * exfalso. by apply Hdata.
      * left. by repeat eexists.
Qed.

(** ** The size of a file *)

Lemma on_data_listened (o : BodyParserOptions) (st : State) (sid : nat)
  (field : string) (value : File) (chunk : list Byte.byte) :
  listeners st !! sid = Some (field, value) ->
  step o st (EvData sid chunk) =
    set_listeners (<[sid := (field, with_size value (length chunk))]>
                     (listeners st)) st.
Proof. intros Hl. cbn [step]. unfold on_data. by rewrite Hl. Qed.

Lemma data_events_keep (o : BodyParserOptions) (sid : nat) (field : string)
  (chunks : list (list Byte.byte)) :
  forall st value,
    listeners st !! sid = Some (field, value) ->
    let st' := fold_left (fun s c => step o s (EvData sid c)) chunks st in
    exists n, listeners st' !! sid = Some (field, with_size value n) /\
              data st' = data st /\ errors st' = errors st.
Proof.
  induction chunks as [|c chunks IH]; intros st value Hl; cbn [fold_left].
  - exists (file_size value). by destruct value.
  - rewrite (on_data_listened o st sid field value c Hl).
    edestruct (IH (set_listeners
                     (<[sid := (field, with_size value (length c))]>
                        (listeners st)) st)) as (n & H1 & H2 & H3).
    { simpl. apply lookup_insert_eq. }
    exists n. by repeat split.
Qed.

(** C6. Each [data] event of an active file stream overwrites the size of
    its descriptor with the length of that chunk: after any chunks and one
    more, the size is the length of the last one, whatever came before,
    and this is the size of the descriptor assigned when the stream ends. *)
Theorem size_is_last_chunk (o : BodyParserOptions) (st : State) (sid : nat)
  (field : string) (value : File) (chunks : list (list Byte.byte))
  (chunk : list Byte.byte) :
  listeners st !! sid = Some (field, value) ->
  let st' :=
    fold_left (fun s c => step o s (EvData sid c)) (chunks ++ [chunk]) st in
  listeners st' !! sid = Some (field, with_size value (length chunk)) /\
  file_size (with_size value (length chunk)) = length chunk /\
  data (step o st' (EvEnd sid false)) =
    setField (data st) field (VFile (with_size value (length chunk))).
Proof.
  intros Hl st'. subst st'. rewrite fold_left_app. cbn [fold_left].
  destruct (data_events_keep o sid field chunks st value Hl)
    as (n & Hn & Hd & _).
  rewrite (on_data_listened o _ sid field _ chunk Hn).
  assert (Hlook : forall m : gmap nat (string * File),
    <[sid := (field, with_size (with_size value n) (length chunk))]> m !! sid
    = Some (field, with_size value (length chunk))).
  { intros m. by rewrite lookup_insert_eq. }
  split; [apply Hlook|]. split; [done|].
  cbn [step]. unfold on_end. cbn [listeners set_listeners].
  rewrite Hlook. cbn [data assign set_listeners]. f_equal. exact Hd.
Qed.

(** ** The [file] handler *)

(** The events of a stream without listeners reach no callback. *)
Lemma unlistened_stream (o : BodyParserOptions) (st : State) (sid : nat) :
  listeners st !! sid = None ->
  (forall chunk, step o st (EvData sid chunk) = st) /\
  (forall truncated, step o st (EvEnd sid truncated) = st).
Proof.
  intros Hl. split; intros; cbn [step]; unfold on_data, on_end; by rewrite Hl.
Qed.

Lemma unlistened_chunks (o : BodyParserOptions) (st : State) (sid : nat)
  (chunks : list (list Byte.byte)) :
  listeners st !! sid = None ->
  fold_left (fun s c => step o s (EvData sid c)) chunks st = st.
Proof.
  intros Hl. induction chunks as [|c chunks IH]; cbn [fold_left]; [done|].
  by rewrite (proj1 (unlistened_stream o st sid Hl) c).
Qed.

(** C7. The [file] handler, given a part with a filename whose declared
    type the configured pattern does not accept, appends exactly one
    [FILE_TYPE_REJECTED] violation and resumes the stream, and that is
    all: no call of [onFile], no directory, no write stream, no assignment,
    no listener, so that the chunks and the end of the stream flow away
    without reaching any callback. (The handler runs for the parts the
    decoder hands to it; the decoder has none to hand over when the
    handler is not registered.) *)
Theorem rejected_type_is_drained (o : BodyParserOptions) (st : State)
  (sid : nat) (field : string) (info : FileInfo) (pattern : string) :
  info_filename info <> EmptyString ->
  mimeType o = Some pattern ->
  pattern <> EmptyString ->
  accepts (mkFile (info_filename info) 0 (info_mimeType info) None) pattern
    = false ->
  let value := mkFile (info_filename info) 0 (info_mimeType info) None in
  let st' := on_file o sid field info st in
  errors st' = errors st ++ [file_type_rejected value pattern] /\
  err_name (file_type_rejected value pattern) = "FILE_TYPE_REJECTED" /\
  effects st' = effects st ++ [Resume sid] /\
  data st' = data st /\
  listeners st' = listeners st /\
  awaiting st' = awaiting st /\
  (listeners st !! sid = None ->
   forall chunks truncated,
     step o (fold_left (fun s c => step o s (EvData sid c)) chunks st')
       (EvEnd sid truncated) = st').
Proof.
  intros Hname Hmime Hpat Hacc value st'. subst value st'.
  unfold on_file, mime_rejected. rewrite Hmime. cbn [file_name template_str].
  destruct (info_filename info) as [|c name] eqn:Hn; [done|].
  destruct pattern as [|c' pattern']; [done|]. rewrite Hacc.
  cbn [truthy_str negb andb]. repeat split.
  intros Hl chunks truncated.
  rewrite unlistened_chunks by done.
  by apply unlistened_stream.
Qed.

(** C5, as the code has it. The [file] handler, given a part whose
    filename is empty, resumes the stream and does nothing else: no
    violation, no call of [onFile], no directory, no write stream, no
    listener, hence no assignment, since the events of the stream reach no
    callback. The decoder, for its part, has counted the part against
    [limits.files] before it handed it over: it goes on with one more file
    counted. *)
Theorem empty_filename_is_drained_but_counted (o : BodyParserOptions) :
  (forall st sid field info,
     info_filename info = EmptyString ->
     let st' := on_file o sid field info st in
     st' = do_effect (Resume sid) st /\
     errors st' = errors st /\
     data st' = data st /\
     effects st' = effects st ++ [Resume sid] /\
     listeners st' = listeners st /\
     awaiting st' = awaiting st)
  /\
  (forall field info chunks truncated rest d st,
     info_filename info = EmptyString ->
     has_file_handler o = true ->
     at_files_limit o d = false ->
     listeners st !! streams d = None ->
     awaiting st !! streams d = None ->
     busboy_feed o (PartFile field info chunks truncated :: rest) d st =
     busboy_feed o rest
       (mkDecoder (S (files d)) (hitFilesLimit d) (S (streams d)))
       (do_effect (Resume (streams d)) st)).
Proof.
  assert (Hfile : forall st sid field info,
    info_filename info = EmptyString ->
    on_file o sid field info st = do_effect (Resume sid) st).
  { intros st sid field info Hn. unfold on_file. cbn [file_name].
    by rewrite Hn. }
  split.
  - intros st sid field info Hn. cbn zeta. by rewrite Hfile.
  - intros field info chunks truncated rest d st Hn Hh Hlim Hl Ha.
    cbn [busboy_feed]. rewrite Hlim, Hh. f_equal.
    unfold feed_file.
    assert (Hst : step o st (EvFile (streams d) field info) =
                  do_effect (Resume (streams d)) st).
    { cbn [step]. rewrite Hh. by apply Hfile. }
    rewrite Hst. cbn [awaiting do_effect]. rewrite Ha.
    rewrite unlistened_chunks by done.
    by apply unlistened_stream.
Qed.

(** ** Violations and settlement *)

(** C8. Recording a violation settles nothing. Every callback other than
    [finish] and the timer leaves the promise and the timer queue as they
    are and only appends to [errors]; [filesLimit] appends
    [FILE_COUNT_EXCEEDED] and changes nothing else; however many such
    callbacks have run, the promise is pending. The callbacks that follow a
    violation do the same work on the tree, the listeners and the side
    work as they would without it. With a violation on record, [finish]
    settles the pending promise as [Failure], and a settled promise is
    never settled again. *)
Theorem violations_never_settle_early (o : BodyParserOptions) :
  (forall st ev,
     is_closing ev = false ->
     settled (step o st ev) = settled st /\
     timers (step o st ev) = timers st /\
     exists more, errors (step o st ev) = errors st ++ more)
  /\
  (forall st,
     step o st EvFilesLimit = push_error (file_count_exceeded o) st /\
     err_name (file_count_exceeded o) = "FILE_COUNT_EXCEEDED")
  /\
  (forall evs,
     forallb (fun ev => negb (is_closing ev)) evs = true ->
     settled (run o evs init_state) = None)
  /\
  (forall st v ev,
     is_closing ev = false ->
     data (step o (push_error v st) ev) = data (step o st ev) /\
     listeners (step o (push_error v st) ev) = listeners (step o st ev) /\
     awaiting (step o (push_error v st) ev) = awaiting (step o st ev) /\
     effects (step o (push_error v st) ev) = effects (step o st ev))
  /\
  (forall st,
     settled st = None -> errors st <> [] ->
     settled (step o st EvFinish) = Some (Failure (errors st)))
  /\
  (forall st ev out,
     settled st = Some out -> settled (step o st ev) = Some out).
Proof.
  repeat apply conj.
  - intros st ev Hev. destruct (step_keeps_promise o st ev Hev).
    repeat split; try done. apply step_appends.
  - done.
  - intros evs Hall. by destruct (run_keeps_promise o evs init_state Hall).
  - intros st v ev Hev.
    destruct ev; try discriminate Hev; callbacks;
      cbn [listeners awaiting push_error]; split_cases; done.
  - intros st Hs He. cbn [step]. unfold on_finish, settle.
    destruct (errors st); [done|]. by rewrite Hs.
  - intros st ev out. apply step_settled_once.
Qed.

(** C9, as the code has it. When the decoder emits [finish], a decode
    operation without violations is not settled by the [finish] handler:
    the handler queues one timer and returns with the promise pending;
    whatever other callbacks run before the timer (the continuation of a
    per-file write among them) find it pending, none of them is waited
    for, and the timer resolves it with the tree as it then is. A decode
    operation with a violation is settled as [Failure] by the [finish]
    handler itself, and no timer is queued. *)
Theorem settlement_after_finish (o : BodyParserOptions) (parts : list Part) :
  let st := form_open o parts in
  let st' := step o st EvFinish in
  (errors st = [] ->
   settled st' = None /\
   timers st' = 1%nat /\
   forall evs,
     forallb (fun ev => negb (is_closing ev)) evs = true ->
     let st'' := run o evs st' in
     settled st'' = None /\
     settled (step o st'' EvTimer) = Some (Success (BodyForm (data st''))))
  /\
  (errors st <> [] ->
   settled st' = Some (Failure (errors st)) /\
   timers st' = 0%nat).
Proof.
  intros st st'. subst st st'.
  destruct (form_open_pending o parts) as [Hs Ht].
  cbn [step]. unfold on_finish.
  destruct (errors (form_open o parts)) as [|v errs] eqn:He; split; try done.
  - intros _. cbn [settled timers set_timers set_req_body].
    rewrite Hs, Ht. split; [done|]. split; [done|].
    intros evs Hall. cbn zeta.
    destruct (run_keeps_promise o evs
                (set_timers 1 (set_req_body (data (form_open o parts))
                                 (form_open o parts))) Hall) as [Hs' Ht'].
    cbn [settled timers set_timers set_req_body] in Hs', Ht'.
    split; [congruence|].
    cbn [step]. unfold on_timer, settle. rewrite Ht'.
    cbn [settled set_timers]. rewrite Hs', Hs. done.
  - intros _. unfold settle. rewrite Hs. by cbn [settled timers].
Qed.

(** ** A body parser without a [file] handler *)

Lemma no_handler_no_ceiling (o : BodyParserOptions) :
  has_file_handler o = false ->
  maxFileCount o = None /\ forall d, at_files_limit o d = false.
Proof.
  unfold has_file_handler, at_files_limit.
  destruct (maxFileCount o); [discriminate | done].
Qed.

Lemma busboy_feed_text_only (o : BodyParserOptions) :
  has_file_handler o = false ->
  forall parts d st,
    let st' := busboy_feed o parts d st in
    errors st' = errors st ++ field_violations o parts /\
    data st' = assign_text_fields parts (data st) /\
    effects st' = effects st /\
    listeners st' = listeners st /\
    awaiting st' = awaiting st.
Proof.
  intros Hh. destruct (no_handler_no_ceiling o Hh) as [_ Hlim].
  induction parts as [|p parts IH]; intros d st; cbn zeta.
  - cbn. by rewrite app_nil_r.
  - destruct p as [field value info | field info chunks truncated];
      cbn [busboy_feed].
    + destruct (IH d (step o st (EvField field value info)))
        as (He & Hd & Hf & Hl & Ha).
      rewrite He, Hd, Hf, Hl, Ha. clear He Hd Hf Hl Ha.
      unfold field_violations, assign_text_fields.
      cbn [flat_map fold_left step]. unfold on_field.
      destruct (nameTruncated info || valueTruncated info);
        cbn [errors data effects listeners awaiting push_error assign];
        rewrite <- ?app_assoc; done.
    + rewrite Hlim, Hh. apply IH.
Qed.

Lemma whole_fields_no_violation (o : BodyParserOptions) (parts : list Part) :
  forallb (fun p => negb (is_truncated_field p)) parts = true ->
  field_violations o parts = [].
Proof.
  unfold field_violations.
  induction parts as [|p parts IH]; cbn [forallb flat_map]; [done|].
  intros [Hp Hall]%andb_prop. rewrite (IH Hall), app_nil_r.
  destruct p; [|done]. simpl in Hp. by destruct (_ || _).
Qed.

(** C10. When the options give no [fileCount], no [uploadDir] and no
    [onFile], the test that guards the registration of the [file] handler
    fails: a [file] event finds no handler, and over a whole body the file
    parts leave no trace: the violations are those of the truncated text
    fields, the tree holds the text fields that came whole, assigned in
    order, no side work is started, no stream has listeners. When no text
    field is truncated the operation is settled as [Success] with that
    tree, whatever files the body holds. *)
Theorem no_file_handler_without_options (o : BodyParserOptions)
  (parts : list Part) :
  fileCount o = None -> uploadDir o = None -> onFile o = false ->
  has_file_handler o = false /\
  (forall st sid field info, step o st (EvFile sid field info) = st) /\
  (let st := form_open o parts in
   errors st = field_violations o parts /\
   data st = assign_text_fields parts empty_tree /\
   effects st = [] /\
   listeners st = ∅ /\
   awaiting st = ∅) /\
  (forallb (fun p => negb (is_truncated_field p)) parts = true ->
   settled (form_route o parts) =
     Some (Success (BodyForm (assign_text_fields parts empty_tree)))).
Proof.
  intros Hc Hd Hf.
  assert (Hh : has_file_handler o = false).
  { unfold has_file_handler, maxFileCount. by rewrite Hc, Hd, Hf. }
  split; [done|]. split.
  { intros st sid field info. cbn [step]. by rewrite Hh. }
  destruct (busboy_feed_text_only o Hh parts (mkDecoder 0 false 0) init_state)
    as (He & Hdata & Heff & Hl & Ha).
  split; [done|].
  intros Hall. unfold form_route.
  destruct (form_open_pending o parts) as [Hs Ht].
  rewrite (finish_then_timers o _ Hs Ht).
  unfold form_open. rewrite He, Hdata.
  by rewrite (whole_fields_no_violation o parts Hall).
Qed.

End Properties.

(** ** The walk of the JSON reviver *)

Section JsonWalk.
Context `{E : Externals}.

Lemma reviver_records (limit : Z) (key : string) (v : JSON) :
  walk_records limit (reviver limit key v) v
    match v with
    | JStr s => if Z.of_nat (String.length s) >? limit then 1%nat else 0%nat
    | _ => 0%nat
    end.
Proof.
  intros w. split; [done|]. unfold reviver.
  destruct v; cbn [fst walk_errors];
    try (exists []; by rewrite app_nil_r).
  destruct (Z.of_nat (String.length s) >? limit).
  - eexists. split; [done|]. split; [done|]. by repeat constructor.
  - exists []. by rewrite app_nil_r.
Qed.

Lemma internalize_records (limit : Z) (v : JSON) :
  forall key,
    walk_records limit (internalize limit key v) v (oversized_leaves limit v).
Proof.
  induction v as [| b | n | s | items IH | props IH] using JSON_nested_ind;
    intros key; try apply (reviver_records limit key).
  - assert (Hloop : forall i w,
      snd (revive_elements (internalize limit) i items w) = items /\
      exists more,
        walk_errors (fst (revive_elements (internalize limit) i items w)) =
          walk_errors w ++ more /\
        length more = list_sum (map (oversized_leaves limit) items) /\
        Forall (fun e => err_name e = "FIELD_SIZE_EXCEEDED") more).
    { induction IH as [|x rest Hx _ IHrest]; intros i w;
        cbn [revive_elements map list_sum].
      { split; [done|]. exists []. by rewrite app_nil_r. }
      destruct (Hx (string_of_index i) w) as (Hv & m1 & He1 & Hl1 & Hf1).
      destruct (internalize limit (string_of_index i) x w) as [w1 x'].
      cbn [fst snd] in Hv, He1. subst x'.
      destruct (IHrest (S i) w1) as (Hr & m2 & He2 & Hl2 & Hf2).
      destruct (revive_elements (internalize limit) (S i) rest w1)
        as [w2 rest'].
      cbn [fst snd] in Hr, He2 |- *. subst rest'. split; [done|].
      exists (m1 ++ m2). rewrite He2, He1, <- app_assoc, length_app.
      split; [done|]. split; [by rewrite Hl1, Hl2|]. by apply Forall_app. }
    intros w. cbn [internalize oversized_leaves].
    destruct (Hloop 0%nat w) as (Hi & m & He & Hl & Hf).
    destruct (revive_elements (internalize limit) 0 items w) as [w' items'].
    cbn [fst snd] in Hi, He. subst items'.
    destruct (reviver_records limit key (JArr items) w')
      as (Hv & m' & He' & Hl' & Hf').
    split; [done|]. destruct m'; [|done].
    exists m. rewrite He', He, app_nil_r. done.
  - assert (Hloop : forall w,
      snd (revive_members (internalize limit) props w) = props /\
      exists more,
        walk_errors (fst (revive_members (internalize limit) props w)) =
          walk_errors w ++ more /\
        length more =
          list_sum (map (fun kv => oversized_leaves limit (snd kv)) props) /\
        Forall (fun e => err_name e = "FIELD_SIZE_EXCEEDED") more).
    { induction IH as [|[k x] rest Hx _ IHrest]; intros w;
        cbn [revive_members map list_sum snd].
      { split; [done|]. exists []. by rewrite app_nil_r. }
      destruct (Hx k w) as (Hv & m1 & He1 & Hl1 & Hf1).
      cbn [snd] in Hv, He1, Hl1.
      destruct (internalize limit k x w) as [w1 x'].
      cbn [fst snd] in Hv, He1. subst x'.
      destruct (IHrest w1) as (Hr & m2 & He2 & Hl2 & Hf2).
      destruct (revive_members (internalize limit) rest w1) as [w2 rest'].
      cbn [fst snd] in Hr, He2 |- *. subst rest'. split; [done|].
      exists (m1 ++ m2). rewrite He2, He1, <- app_assoc, length_app.
      split; [done|]. split; [by rewrite Hl1, Hl2|]. by apply Forall_app. }
    intros w. cbn [internalize oversized_leaves].
    destruct (Hloop w) as (Hi & m & He & Hl & Hf).
    destruct (revive_members (internalize limit) props w) as [w' props'].
    cbn [fst snd] in Hi, He. subst props'.
    destruct (reviver_records limit key (JObj props) w')
      as (Hv & m' & He' & Hl' & Hf').
    split; [done|]. destruct m'; [|done].
    exists m. rewrite He', He, app_nil_r. done.
Qed.

(** X1. On the JSON route with a field size limit, a body that the decoder
    parsed is rejected with exactly one [FIELD_SIZE_EXCEEDED] violation for
    each string leaf longer than the limit and nothing else, however the
    leaves are nested; the reviver hands every value back unchanged, so a
    body without such a leaf is delivered as it was parsed. *)
Theorem json_one_violation_per_long_leaf (o : BodyParserOptions)
  (parsed : JSON) (limit : Z) :
  maxFieldSize o = Some limit ->
  let errs := fst (json_callback o (JsonParsed parsed)) in
  snd (json_callback o (JsonParsed parsed)) = parsed /\
  length errs = oversized_leaves limit parsed /\
  Forall (fun e => err_name e = "FIELD_SIZE_EXCEEDED") errs /\
  (oversized_leaves limit parsed = 0%nat ->
   json_route o (JsonParsed parsed) = Success (BodyJson parsed)).
Proof.
  intros Hlimit. unfold json_route, json_callback, json_parse.
  rewrite Hlimit.
  destruct (internalize_records limit parsed EmptyString (mkWalk None []))
    as (Hv & more & He & Hl & Hf).
  destruct (internalize limit EmptyString parsed (mkWalk None [])) as [w v].
  cbn [fst snd walk_errors app] in *. subst v. rewrite He.
  repeat split; try done.
  intros H0. rewrite H0 in Hl. by destruct more.
Qed.

(** X2. Once the decoder has read the body to its end (the JSON decoder
    calls back, the form decoder emits [finish]), the promise returned by
    [bodyparser] is settled: with [null], with the body, or with the
    violations. *)
Theorem bodyparser_settles (req : Request) (o : BodyParserOptions) :
  bodyparser req o <> Pending.
Proof.
  unfold bodyparser.
  destruct (route_of (content_type req)) as [[]|]; try discriminate.
  unfold form_route.
  destruct (form_open_pending o (form_parts req)) as [Hs Ht].
  by rewrite (finish_then_timers o _ Hs Ht).
Qed.

End JsonWalk.

(** ** One file, from its first event to its last *)

Section FileStreams.
Context `{E : Externals}.

Lemma run_app (o : BodyParserOptions) (evs evs' : list Event) (st : State) :
  run o (evs ++ evs') st = run o evs' (run o evs st).
Proof. apply fold_left_app. Qed.

Lemma run_data_events (o : BodyParserOptions) (sid : nat)
  (chunks : list (list Byte.byte)) :
  forall st,
    run o (map (EvData sid) chunks) st =
    fold_left (fun s c => step o s (EvData sid c)) chunks st.
Proof.
  induction chunks as [|c chunks IH]; intros st; [done|]. apply IH.
Qed.

Lemma last_after_head (x d : nat) (l : list nat) :
  List.last (x :: l) d = List.last l x.
Proof.
  revert x d. induction l as [|y l IH]; intros x d; [done|].
  change (List.last (x :: y :: l) d) with (List.last (y :: l) d).
  by rewrite !IH.
Qed.

(** The chunks of a stream change its descriptor and nothing else. *)
Lemma data_events_size (o : BodyParserOptions) (sid : nat) (field : string)
  (chunks : list (list Byte.byte)) :
  forall st value,
    listeners st !! sid = Some (field, value) ->
    let st' := fold_left (fun s c => step o s (EvData sid c)) chunks st in
    listeners st' !! sid =
      Some (field, with_size value (last_chunk_size chunks (file_size value)))
    /\ data st' = data st /\ errors st' = errors st
    /\ effects st' = effects st /\ ids st' = ids st
    /\ awaiting st' = awaiting st.
Proof.
  unfold last_chunk_size.
  induction chunks as [|c chunks IH]; intros st value Hl; cbn [fold_left map].
  - cbn. by destruct value.
  - rewrite (on_data_listened o st sid field value c Hl).
    rewrite last_after_head.
    destruct (IH (set_listeners
                    (<[sid := (field, with_size value (length c))]>
                       (listeners st)) st)
                 (with_size value (length c)))
      as (H1 & H2 & H3 & H4 & H5 & H6).
    { cbn [listeners set_listeners]. apply lookup_insert_eq. }
    cbn zeta in H1. cbn [file_size with_size] in H1.
    by repeat split.
Qed.

(** The callbacks of one accepted stream, with an [onFile] handler. *)
Lemma file_trace_with_handler (o : BodyParserOptions) (st : State)
  (sid : nat) (field : string) (info : FileInfo)
  (chunks : list (list Byte.byte)) (truncated : bool) :
  onFile o = true ->
  info_filename info <> EmptyString ->
  mime_rejected o (mkFile (info_filename info) 0 (info_mimeType info) None)
    = false ->
  let value := mkFile (info_filename info) 0 (info_mimeType info) None in
  let final := with_size value (last_chunk_size chunks 0) in
  let st' := run o (file_trace sid field info chunks truncated) st in
  effects st' = effects st ++ [OnFile field value sid] /\
  file_path final = None /\
  (truncated = true ->
   errors st' = errors st ++ [file_size_exceeded o final] /\
   data st' = data st) /\
  (truncated = false ->
   errors st' = errors st /\
   data st' = setField (data st) field (VFile final)) /\
  awaiting st' = awaiting st.
Proof.
  intros Hon Hname Hmime. cbn zeta.
  set (value := mkFile (info_filename info) 0 (info_mimeType info) None) in *.
  set (final := with_size value (last_chunk_size chunks 0)).
  assert (Hh : has_file_handler o = true).
  { unfold has_file_handler. rewrite Hon, orb_true_r. by destruct (maxFileCount o). }
  assert (Hfile : step o st (EvFile sid field info) =
                  listen sid field value (do_effect (OnFile field value sid) st)).
  { cbn [step]. rewrite Hh. unfold on_file. cbn zeta. fold value.
    rewrite Hmime, Hon.
    cbn [file_name value]. by destruct (info_filename info). }
  unfold file_trace.
  change (run o (?e :: ?l) st) with (run o l (step o st e)).
  rewrite run_app, run_data_events, Hfile.
  destruct (data_events_size o sid field chunks
              (listen sid field value (do_effect (OnFile field value sid) st))
              value) as (Hl & Hd & He & Hf & _ & Ha).
  { unfold listen. cbn [listeners set_listeners]. apply lookup_insert_eq. }
  cbn zeta in Hl. change (file_size value) with 0%nat in Hl. fold final in Hl.
  match goal with
  | |- context [fold_left ?f chunks ?s] =>
      set (st2 := fold_left f chunks s) in *
  end.
  cbn [run fold_left step]. unfold on_end. rewrite Hl.
  destruct truncated;
    cbn [effects errors data awaiting push_error assign];
    rewrite ?Hf, ?He, ?Hd, ?Ha;
    (split; [done|]); (split; [done|]); (split; [by intros|]);
    (split; [by intros|]); done.
Qed.

(** X3. A file part with a filename and an accepted type, parsed with an
    [onFile] handler: over the callbacks of its stream, the handler is
    called once, with the stream and a descriptor of size 0, and nothing
    is written; the descriptor carries no path and, as its size, the
    length of the last chunk (0 for a stream without chunks). It is
    assigned to the field when the stream ends whole, and replaced by one
    [FILE_SIZE_EXCEEDED] violation when the stream ends truncated. *)
Theorem accepted_file_is_handed_over (o : BodyParserOptions) (st : State)
  (sid : nat) (field : string) (info : FileInfo)
  (chunks : list (list Byte.byte)) (truncated : bool) :
  onFile o = true ->
  info_filename info <> EmptyString ->
  mime_rejected o (mkFile (info_filename info) 0 (info_mimeType info) None)
    = false ->
  let value := mkFile (info_filename info) 0 (info_mimeType info) None in
  let final := with_size value (last_chunk_size chunks 0) in
  let st' := run o (file_trace sid field info chunks truncated) st in
  effects st' = effects st ++ [OnFile field value sid] /\
  file_path final = None /\
  (truncated = true ->
   errors st' = errors st ++ [file_size_exceeded o final] /\
   data st' = data st) /\
  (truncated = false ->
   errors st' = errors st /\
   data st' = setField (data st) field (VFile final)).
Proof.
  intros Hon Hname Hmime.
  destruct (file_trace_with_handler o st sid field info chunks truncated
              Hon Hname Hmime) as (He & Hp & Ht & Hw & _).
  exact (conj He (conj Hp (conj Ht Hw))).
Qed.

(** The callbacks of one accepted stream, stored in the upload directory. *)
Lemma file_trace_stored (o : BodyParserOptions) (st : State)
  (sid : nat) (field : string) (info : FileInfo)
  (chunks : list (list Byte.byte)) (truncated : bool) :
  has_file_handler o = true ->
  onFile o = false ->
  info_filename info <> EmptyString ->
  mime_rejected o (mkFile (info_filename info) 0 (info_mimeType info) None)
    = false ->
  let target :=
    path_join (upload_dir o)
      (path_basename field +:+ "_" +:+ picoid (ids st)) in
  let final :=
    mkFile (info_filename info) (last_chunk_size chunks 0)
      (info_mimeType info) (Some target) in
  let st' := run o (stored_file_trace sid field info chunks truncated) st in
  effects st' = effects st ++ [Mkdir (upload_dir o); Pipe sid target] /\
  ids st' = S (ids st) /\
  (truncated = true ->
   errors st' = errors st ++ [file_size_exceeded o final] /\
   data st' = data st) /\
  (truncated = false ->
   errors st' = errors st /\
   data st' = setField (data st) field (VFile final)) /\
  awaiting st' = delete sid (awaiting st).
Proof.
  intros Hh Hoff Hname Hmime. cbn zeta.
  set (value := mkFile (info_filename info) 0 (info_mimeType info) None) in *.
  set (target := path_join (upload_dir o)
                   (path_basename field +:+ "_" +:+ picoid (ids st))).
  set (final := mkFile (info_filename info) (last_chunk_size chunks 0)
                  (info_mimeType info) (Some target)).
  assert (Hfile : step o st (EvFile sid field info) =
                  set_awaiting (<[sid := (field, value)]> (awaiting st))
                    (do_effect (Mkdir (upload_dir o)) st)).
  { cbn [step]. rewrite Hh. unfold on_file. cbn zeta. fold value.
    rewrite Hmime, Hoff.
    cbn [file_name value]. by destruct (info_filename info). }
  unfold stored_file_trace.
  change (run o (?e :: ?e' :: ?l) st)
    with (run o l (step o (step o st e) e')).
  rewrite run_app, run_data_events, Hfile.
  set (stored := mkFile (file_name value) (file_size value) (file_type value)
                   (Some target)).
  set (st1 := set_awaiting (<[sid := (field, value)]> (awaiting st))
                (do_effect (Mkdir (upload_dir o)) st)).
  assert (Hdone : step o st1 (EvMkdirDone sid) =
                  listen sid field stored
                    (do_effect (Pipe sid target)
                       (next_id (set_awaiting (delete sid (awaiting st1)) st1)))).
  { cbn [step]. unfold on_mkdir_done, st1.
    cbn [awaiting set_awaiting do_effect ids].
    by rewrite lookup_insert_eq. }
  rewrite Hdone.
  match goal with
  | |- context [fold_left _ chunks ?s] =>
      destruct (data_events_size o sid field chunks s stored)
        as (Hl & Hd & He & Hf & Hi & Ha)
  end.
  { unfold listen. cbn [listeners set_listeners]. apply lookup_insert_eq. }
  cbn zeta in Hl. change (file_size stored) with 0%nat in Hl.
  change (with_size stored (last_chunk_size chunks 0)) with final in Hl.
  match goal with
  | |- context [fold_left ?f chunks ?s] =>
      set (st2 := fold_left f chunks s) in *
  end.
  cbn [run fold_left step]. unfold on_end. rewrite Hl.
  destruct truncated;
    cbn [effects errors data ids awaiting push_error assign];
    rewrite ?Hf, ?He, ?Hd, ?Hi, ?Ha;
    unfold listen, st1;
    cbn [effects errors data ids awaiting set_listeners do_effect next_id
           set_awaiting];
    rewrite <- ?app_assoc, ?delete_insert_eq;
    (split; [done|]); (split; [done|]); (split; [by intros|]);
    (split; [by intros|]); done.
Qed.

(** X4. The same part parsed without an [onFile] handler, by a parser
    whose [file] handler is registered: the upload directory is created,
    and once that is done the stream is piped to a file of that directory
    named after the base name of the field and the next identifier, which
    is then used up; nothing else is started. The descriptor carries that
    path and, as its size, the length of the last chunk. It is assigned to
    the field when the stream ends whole, and replaced by one
    [FILE_SIZE_EXCEEDED] violation when the stream ends truncated. *)
Theorem accepted_file_is_stored (o : BodyParserOptions) (st : State)
  (sid : nat) (field : string) (info : FileInfo)
  (chunks : list (list Byte.byte)) (truncated : bool) :
  has_file_handler o = true ->
  onFile o = false ->
  info_filename info <> EmptyString ->
  mime_rejected o (mkFile (info_filename info) 0 (info_mimeType info) None)
    = false ->
  let target :=
    path_join (upload_dir o)
      (path_basename field +:+ "_" +:+ picoid (ids st)) in
  let final :=
    mkFile (info_filename info) (last_chunk_size chunks 0)
      (info_mimeType info) (Some target) in
  let st' := run o (stored_file_trace sid field info chunks truncated) st in
  effects st' = effects st ++ [Mkdir (upload_dir o); Pipe sid target] /\
  ids st' = S (ids st) /\
  (truncated = true ->
   errors st' = errors st ++ [file_size_exceeded o final] /\
   data st' = data st) /\
  (truncated = false ->
   errors st' = errors st /\
   data st' = setField (data st) field (VFile final)).
Proof.
  intros Hh Hoff Hname Hmime.
  destruct (file_trace_stored o st sid field info chunks truncated
              Hh Hoff Hname Hmime) as (He & Hi & Ht & Hw & _).
  exact (conj He (conj Hi (conj Ht Hw))).
Qed.

End FileStreams.

(** ** Streams side by side, and the two ways to keep a file *)

Ltac open_callbacks :=
  unfold step, on_file, on_mkdir_done, on_data, on_end, on_field,
    on_filesLimit, on_finish, on_timer, listen, settle in *.

Ltac case_matches :=
  repeat match goal with
    | |- context [match ?x with _ => _ end] => destruct x eqn:?
    end.


Section Streams.
Context `{E : Externals}.

Lemma step_other_stream (o : BodyParserOptions) (st : State) (ev : Event)
  (sid : nat) :
  stream_of ev <> Some sid ->
  listeners (step o st ev) !! sid = listeners st !! sid /\
  awaiting (step o st ev) !! sid = awaiting st !! sid.
Proof.
  intros Hother.
  destruct ev as [sid' ? ? | sid' | sid' ? | sid' ? | | | |];
    cbn [stream_of] in Hother; open_callbacks; case_matches;
    cbn [listeners awaiting set_listeners set_awaiting do_effect push_error
           assign next_id set_timers set_req_body];
    rewrite ?lookup_insert_ne, ?lookup_delete_ne by congruence; done.
Qed.

(** X5. The callbacks of the other streams, and those of the text fields,
    leave the descriptor of a file stream as it is: whatever runs in
    between, each of its own chunks still sets its size, and its end
    assigns the descriptor its own events have shaped. *)
Theorem streams_do_not_interfere (o : BodyParserOptions) (sid : nat)
  (evs : list Event) (st : State) :
  Forall (fun ev => stream_of ev <> Some sid) evs ->
  listeners (run o evs st) !! sid = listeners st !! sid /\
  awaiting (run o evs st) !! sid = awaiting st !! sid /\
  (forall field value,
     listeners st !! sid = Some (field, value) ->
     data (step o (run o evs st) (EvEnd sid false)) =
       setField (data (run o evs st)) field (VFile value)).
Proof.
  intros Hall.
  assert (Hkeep : listeners (run o evs st) !! sid = listeners st !! sid /\
                  awaiting (run o evs st) !! sid = awaiting st !! sid).
  { revert st. induction Hall as [|ev evs Hev _ IH]; intros st; [done|].
    change (run o (ev :: evs) st) with (run o evs (step o st ev)).
    destruct (IH (step o st ev)) as [-> ->].
    by apply step_other_stream. }
  destruct Hkeep as [Hl Ha]. split; [done|]. split; [done|].
  intros field value Hsid. cbn [step]. unfold on_end.
  by rewrite Hl, Hsid.
Qed.

Lemma step_keeps_off_disk (o : BodyParserOptions) (st : State) (ev : Event) :
  onFile o = true -> keeps_off_disk st -> keeps_off_disk (step o st ev).
Proof.
  intros Hon (Hf & Ha & Hi). unfold keeps_off_disk.
  destruct ev; open_callbacks; rewrite ?Ha, ?lookup_empty, ?Hon;
    case_matches; try discriminate;
    cbn [effects awaiting ids set_listeners set_awaiting do_effect push_error
           assign next_id set_timers set_req_body];
    repeat split; try done;
    apply Forall_app; split; try done; by repeat constructor.
Qed.

(** X6. With an [onFile] handler nothing is ever written: whatever
    callbacks run, and over every body, no directory is created, no stream
    is piped to a file, no [file] handler waits for a directory and no
    identifier is drawn. *)
Theorem onFile_never_writes (o : BodyParserOptions) :
  onFile o = true ->
  (forall evs,
     Forall (fun e => writes_to_disk e = false)
       (effects (run o evs init_state)) /\
     awaiting (run o evs init_state) = ∅ /\
     ids (run o evs init_state) = 0%nat)
  /\
  (forall parts,
     Forall (fun e => writes_to_disk e = false)
       (effects (form_route o parts)) /\
     awaiting (form_route o parts) = ∅ /\
     ids (form_route o parts) = 0%nat).
Proof.
  intros Hon.
  assert (Hinit : keeps_off_disk init_state) by (by repeat split).
  split.
  - intros evs. change (keeps_off_disk (run o evs init_state)).
    revert Hinit. generalize init_state.
    induction evs as [|ev evs IH]; intros st Hst; [done|].
    apply (IH (step o st ev)). by apply step_keeps_off_disk.
  - intros parts. change (keeps_off_disk (form_route o parts)).
    unfold form_route, run_timers.
    assert (Hopen : keeps_off_disk (step o (form_open o parts) EvFinish)).
    { apply step_keeps_off_disk; [done|]. unfold form_open.
      apply (busboy_feed_invariant keeps_off_disk); [|done].
      intros st ev _. by apply step_keeps_off_disk. }
    revert Hopen. generalize (step o (form_open o parts) EvFinish).
    intros st Hst. generalize (timers st).
    induction n as [|n IH]; [done|].
    cbn [Nat.iter nat_rect]. by apply step_keeps_off_disk.
Qed.

End Streams.

(** ** A body that comes whole *)

Section WholeBodies.
Context `{E : Externals}.










End WholeBodies.

(** ** Errors of the JSON decoder, limits, and names of violations *)

Section Outcomes.
Context `{E : Externals}.

(** X7. When the JSON decoder calls back with an error, only the error of
    type [entity.too.large] is reported: the operation fails with one
    [JSON_SIZE_EXCEEDED] violation and nothing else. Any other error of
    the decoder, and a call back without an error on a body that was not
    parsed, is passed over: the promise resolves with [req.body] as the
    decoder left it. *)
Theorem json_decoder_errors (o : BodyParserOptions) (body : JSON) :
  json_route o (JsonNotParsed (Some "entity.too.large") body) =
    Failure [json_size_exceeded o]
  /\
  err_name (json_size_exceeded o) = "JSON_SIZE_EXCEEDED"
  /\
  (forall error,
     error <> Some "entity.too.large" ->
     json_route o (JsonNotParsed error body) = Success (BodyJson body)).
Proof.
  split; [done|]. split; [done|].
  intros [type|] Hother; [|done].
  unfold json_route, json_callback.
  destruct (String.eqb type "entity.too.large") eqn:Heq; [|done].
  apply String.eqb_eq in Heq. congruence.
Qed.

(** X8. A size limit that is absent, the number 0 or the empty string is
    no limit, given that the size parser makes nothing of the empty
    string; so is a string it reads as 0. A number other than 0 is the
    limit as it stands. Without a field size limit no reviver is passed
    to the JSON decoder and a parsed body is delivered whatever the length
    of its strings. *)
Theorem absent_limit_is_no_limit (o : BodyParserOptions) :
  bytes_parse_str EmptyString = None ->
  parse_limit None = None /\
  parse_limit (Some (SizeStr EmptyString)) = None /\
  (forall n, parse_limit (Some (SizeNum n)) = if n =? 0 then None else Some n)
  /\
  (forall s, bytes_parse_str s = Some 0 ->
             parse_limit (Some (SizeStr s)) = None)
  /\
  (maxFieldSize o = None ->
   forall parsed, json_route o (JsonParsed parsed) = Success (BodyJson parsed)).
Proof.
  intros Hempty. unfold parse_limit, size_or_empty, bytes_parse.
  rewrite Hempty. repeat split.
  - intros n. unfold truthy_num. destruct (n =? 0) eqn:Hn; cbn [negb].
    + by rewrite Hempty.
    + cbn [num_or_undefined]. unfold truthy_num. by rewrite Hn.
  - by intros s ->.
  - intros Hnone parsed. unfold json_route, json_callback, json_parse.
    by rewrite Hnone.
Qed.

Lemma revive_plain_members (limit : Z) (props : list (string * JSON)) :
  Forall (fun kv =>
    plain_keys (snd kv) = true ->
    forall key w, has_digits key = false ->
      walk_errors (fst (internalize limit key (snd kv) w)) =
        walk_errors w ++ named_violations limit key (snd kv)) props ->
  forallb (fun kv => negb (has_digits (fst kv)) && plain_keys (snd kv)) props
    = true ->
  forall w,
    walk_errors (fst (revive_members (internalize limit) props w)) =
      walk_errors w ++
      flat_map (fun kv => named_violations limit (fst kv) (snd kv)) props.
Proof.
  induction 1 as [|[k x] rest Hx _ IH]; intros Hall w;
    cbn [revive_members flat_map forallb fst snd] in *.
  { by rewrite app_nil_r. }
  apply andb_prop in Hall as [[Hk Hp]%andb_prop Hall].
  apply negb_true_iff in Hk.
  specialize (Hx Hp k w Hk). specialize (IH Hall).
  destruct (internalize limit k x w) as [w1 x']. cbn [fst] in Hx.
  specialize (IH w1).
  destruct (revive_members (internalize limit) rest w1) as [w2 rest'].
  cbn [fst] in IH |- *. by rewrite IH, Hx, <- app_assoc.
Qed.

Lemma internalize_plain (limit : Z) (v : JSON) :
  plain_keys v = true ->
  forall key w, has_digits key = false ->
    walk_errors (fst (internalize limit key v w)) =
      walk_errors w ++ named_violations limit key v.
Proof.
  induction v as [| b | n | s | items IH | props IH] using JSON_nested_ind;
    intros Hplain key w Hkey; try discriminate Hplain;
    cbn [internalize named_violations]; unfold reviver; rewrite ?Hkey;
    cbn [fst walk_errors]; rewrite ?app_nil_r; try done.
  - by destruct (Z.of_nat (String.length s) >? limit); rewrite ?app_nil_r.
  - cbn [plain_keys] in Hplain.
    pose proof (revive_plain_members limit props IH Hplain w) as Hloop.
    destruct (revive_members (internalize limit) props w) as [w' props'].
    by cbn [fst walk_errors] in *.
Qed.

(** X9. On the JSON route with a field size limit, a parsed body made of
    objects whose keys hold no digit (and no arrays) is checked leaf by
    leaf: the violations are exactly one for each string longer than the
    limit, in the order of the text, each naming the key of the member
    that holds the string, whatever the depth. *)
Theorem plain_keys_are_named (o : BodyParserOptions) (parsed : JSON)
  (limit : Z) :
  maxFieldSize o = Some limit ->
  plain_keys parsed = true ->
  fst (json_callback o (JsonParsed parsed)) =
    named_violations limit EmptyString parsed.
Proof.
  intros Hlimit Hplain. unfold json_callback, json_parse. rewrite Hlimit.
  pose proof (internalize_plain limit parsed Hplain EmptyString
                (mkWalk None []) eq_refl) as Hwalk.
  destruct (internalize limit EmptyString parsed (mkWalk None []))
    as [w v].
  by cbn [fst walk_errors app] in *.
Qed.



(** X11. A body of text fields only, as every body of type
    [application/x-www-form-urlencoded] is, is decoded the same way
    whatever the options: the violations are those of the truncated
    fields, in order, the tree holds the fields that came whole, assigned
    in order, no side work is started, and the operation fails exactly
    when a field was truncated. *)
Theorem text_only_body (o : BodyParserOptions) (parts : list Part) :
  forallb is_text_field parts = true ->
  errors (form_open o parts) = field_violations o parts /\
  data (form_open o parts) = assign_text_fields parts empty_tree /\
  effects (form_open o parts) = [] /\
  settled (form_route o parts) =
    Some match field_violations o parts with
         | [] => Success (BodyForm (assign_text_fields parts empty_tree))
         | _ :: _ => Failure (field_violations o parts)
         end.
Proof.
  intros Hall.
  assert (Hfeed : forall d st,
    errors (busboy_feed o parts d st) = errors st ++ field_violations o parts
    /\ data (busboy_feed o parts d st) = assign_text_fields parts (data st)
    /\ effects (busboy_feed o parts d st) = effects st).
  { induction parts as [|p parts IH]; intros d st.
    { cbn. by rewrite app_nil_r. }
    cbn [forallb] in Hall. apply andb_prop in Hall as [Hp Hall].
    destruct p as [field value info | ]; [|discriminate Hp].
    cbn [busboy_feed].
    destruct (IH Hall d (step o st (EvField field value info)))
      as (He & Hd & Hf).
    rewrite He, Hd, Hf. unfold field_violations, assign_text_fields.
    cbn [flat_map fold_left step]. unfold on_field.
    destruct (nameTruncated info || valueTruncated info);
      cbn [errors data effects push_error assign];
      rewrite <- ?app_assoc; done. }
  unfold form_open at 1 2 3.
  destruct (Hfeed (mkDecoder 0 false 0) init_state) as (He & Hd & Hf).
  repeat split; try done.
  unfold form_route.
  destruct (form_open_pending o parts) as [Hs Ht].
  rewrite (finish_then_timers o _ Hs Ht). unfold form_open.
  rewrite He, Hd. cbn [errors data init_state app].
  by destruct (field_violations o parts).
Qed.

End Outcomes.

(** ** The options each route reads *)

Section Separation.
Context `{E : Externals}.

Lemma step_without_jsonSize (o : BodyParserOptions) (size : option SizeSpec)
  (st : State) (ev : Event) :
  step (with_jsonSize o size) st ev = step o st ev.
Proof. by destruct ev. Qed.

Lemma feed_without_jsonSize (o : BodyParserOptions)
  (size : option SizeSpec) (parts : list Part) :
  forall d st,
    busboy_feed (with_jsonSize o size) parts d st = busboy_feed o parts d st.
Proof.
  induction parts as [|p parts IH]; intros d st; [done|].
  destruct p as [field value info | field info chunks truncated];
    cbn [busboy_feed].
  - by rewrite IH, step_without_jsonSize.
  - change (at_files_limit (with_jsonSize o size) d)
      with (at_files_limit o d).
    change (has_file_handler (with_jsonSize o size))
      with (has_file_handler o).
    rewrite !IH, step_without_jsonSize.
    assert (Hfile : feed_file (with_jsonSize o size) (streams d) field info
                      chunks truncated st =
                    feed_file o (streams d) field info chunks truncated st).
    { unfold feed_file. rewrite !step_without_jsonSize.
      assert (Hfold : forall cs s,
        fold_left (fun s c => step (with_jsonSize o size) s
                                (EvData (streams d) c)) cs s =
        fold_left (fun s c => step o s (EvData (streams d) c)) cs s).
      { induction cs as [|c cs IHc]; intros s; [done|].
        cbn [fold_left]. by rewrite IHc, step_without_jsonSize. }
      by rewrite Hfold. }
    by rewrite Hfile.
Qed.

(** X14. Each route reads its own options. The outcome of the JSON route
    depends on the options through [limits.fieldSize] and
    [limits.jsonSize] alone: two parsers that agree on these two settle a
    request the same way. The form route never reads [limits.jsonSize]:
    changing it changes nothing of the decode operation, neither the
    outcome nor the side work. *)
Theorem routes_read_their_own_options :
  (forall o o' jr,
     fieldSize o = fieldSize o' -> jsonSize o = jsonSize o' ->
     json_route o jr = json_route o' jr)
  /\
  (forall o size parts,
     form_route (with_jsonSize o size) parts = form_route o parts).
Proof.
  split.
  - intros o o' jr Hf Hj.
    unfold json_route, json_callback, json_parse, json_size_exceeded,
      maxFieldSize, maxJsonSize.
    by rewrite Hf, Hj.
  - intros o size parts. unfold form_route, form_open, run_timers.
    rewrite feed_without_jsonSize, step_without_jsonSize.
    generalize (step o (busboy_feed o parts (mkDecoder 0 false 0) init_state)
                  EvFinish).
    intros st. induction (timers st) as [|n IH]; [done|].
    by rewrite !Nat.iter_succ, IH, step_without_jsonSize.
Qed.

End Separation.

(** * The module at work on concrete requests *)

#[local] Existing Instance journal.

Example route_of_json_charset :
  route_of (Some "application/json; charset=utf-8") = Some RouteJson.
Proof. reflexivity. Qed.

Example skip_on_text_plain (req := mkRequest (Some "text/plain") (JsonParsed JNull) []) :
  bodyparser req no_options = Skip.
Proof. reflexivity. Qed.

Example skip_on_upper_case
  (req := mkRequest (Some "Application/JSON") (JsonParsed JNull) []) :
  bodyparser req no_options = Skip.
Proof. reflexivity. Qed.

Example json_failure_on_long_field
  (req := mkRequest (Some "application/json")
            (JsonParsed (JObj [("name", JStr ten_x); ("age", JNum 3)])) []) :
  bodyparser req limit_fields_5 =
    Settled (Failure [field_size_exceeded "name" 5]).
Proof. reflexivity. Qed.

Example form_no_partial_success
  (req := mkRequest (Some "multipart/form-data; boundary=x") (JsonParsed JNull)
            [ PartField "a" "1" whole;
              PartField "b" "2" whole;
              PartFile "doc" text_file [two_bytes] true ]) :
  bodyparser req hand_over =
    Settled (Failure [file_size_exceeded hand_over
                        (mkFile "a.txt" 2 "text/plain" None)]).
Proof. vm_compute. reflexivity. Qed.

Example form_success
  (req := mkRequest (Some "multipart/form-data; boundary=x") (JsonParsed JNull)
            [ PartField "a" "1" whole;
              PartFile "doc" text_file [two_bytes; one_byte] false ]) :
  bodyparser req no_options = Settled (Success (BodyForm [("a", VText "1")]))
  /\ bodyparser req hand_over =
       Settled (Success (BodyForm
         [ ("a", VText "1");
           ("doc", VFile (mkFile "a.txt" 1 "text/plain" None)) ])).
Proof. split; vm_compute; reflexivity. Qed.

(** C4, on a request. With a field size limit of 5, the body
    [{"a": ["xxxxxxxxxx"]}] is rejected with one violation, which names the
    field [undefined.0]: the element is revived before the member [a] that
    holds it, when [lastKey] has no value yet. After a member [x], the same
    element is named [x.0]. A member whose key holds a digit is named after
    [lastKey] too. *)
Lemma array_leaf_named_after_earlier_key :
  json_route limit_fields_5
    (JsonParsed (JObj [("a", JArr [JStr ten_x])])) =
    Failure [field_size_exceeded "undefined.0" 5]
  /\
  json_route limit_fields_5
    (JsonParsed (JObj [("x", JNum 1); ("a", JArr [JStr ten_x])])) =
    Failure [field_size_exceeded "x.0" 5]
  /\
  json_route limit_fields_5
    (JsonParsed (JObj [("x", JNum 1); ("line1", JStr ten_x)])) =
    Failure [field_size_exceeded "x.line1" 5].
Proof. repeat split. Qed.

(** C5, as stated, fails: under a ceiling of one file, a body made of an
    unnamed file part and a named one is rejected with
    [FILE_COUNT_EXCEEDED], while the named part alone is accepted. The
    unnamed part was counted. *)
Lemma empty_filename_counts_against_ceiling :
  settled (form_route one_file_at_most
             [ PartFile "empty" unnamed_file [] false;
               PartFile "doc" text_file [two_bytes] false ]) =
    Some (Failure [file_count_exceeded one_file_at_most])
  /\
  settled (form_route one_file_at_most
             [ PartFile "doc" text_file [two_bytes] false ]) =
    Some (Success (BodyForm
      [("doc", VFile (mkFile "a.txt" 2 "text/plain" (Some "/tmp/doc_0")))]))
  /\
  ~ (forall o field info chunks truncated rest,
       info_filename info = EmptyString ->
       settled (form_route o (PartFile field info chunks truncated :: rest)) =
       settled (form_route o rest)).
Proof.
  split; [by vm_compute|]. split; [by vm_compute|].
  intros H.
  specialize (H one_file_at_most "empty" unnamed_file [] false
                [PartFile "doc" text_file [two_bytes] false] eq_refl).
  vm_compute in H. discriminate H.
Qed.

(** C9, as stated, fails: a body whose only field came truncated is
    settled as [Failure] by the [finish] handler itself, before any timer
    runs. *)
Lemma failure_is_settled_by_finish :
  settled (step no_options (form_open no_options [PartField "a" "b" cut])
             EvFinish) =
    Some (Failure [field_size_exceeded "a" 0])
  /\
  ~ (forall o parts, settled (step o (form_open o parts) EvFinish) = None).
Proof.
  split; [by vm_compute|].
  intros H. specialize (H no_options [PartField "a" "b" cut]).
  vm_compute in H. discriminate H.
Qed.

(** C6 on a stream that delivers two bytes and then one: the descriptor
    that is assigned has size 1, not 3. *)
Lemma size_is_last_chunk_on_two_chunks :
  listeners (step hand_over init_state (EvFile 0 "doc" text_file)) !! 0%nat =
    Some ("doc", mkFile "a.txt" 0 "text/plain" None)
  /\
  data (run hand_over
          [ EvFile 0 "doc" text_file;
            EvData 0 two_bytes; EvData 0 one_byte; EvEnd 0 false ]
          init_state) =
    [("doc", VFile (mkFile "a.txt" 1 "text/plain" None))].
Proof.
  assert (H : listeners (step hand_over init_state (EvFile 0 "doc" text_file))
                !! 0%nat = Some ("doc", mkFile "a.txt" 0 "text/plain" None))
    by (vm_compute; reflexivity).
  split; [exact H|].
  destruct (size_is_last_chunk hand_over _ 0%nat "doc" _ [two_bytes] one_byte H)
    as (_ & _ & T).
  exact T.
Defined.

(** C7 on a text file sent to a parser that takes PNG images only. *)
Lemma rejected_type_is_drained_on_text_file :
  info_filename text_file <> EmptyString
  /\ mimeType only_png = Some "image/png"
  /\ accepts (mkFile "a.txt" 0 "text/plain" None) "image/png" = false
  /\ errors (on_file only_png 0 "doc" text_file init_state) =
       [file_type_rejected (mkFile "a.txt" 0 "text/plain" None) "image/png"]
  /\ effects (on_file only_png 0 "doc" text_file init_state) = [Resume 0].
Proof.
  assert (H1 : info_filename text_file <> EmptyString) by discriminate.
  assert (H2 : mimeType only_png = Some "image/png") by reflexivity.
  assert (H3 : "image/png" <> EmptyString) by discriminate.
  assert (H4 : accepts (mkFile (info_filename text_file) 0
                          (info_mimeType text_file) None) "image/png" = false)
    by reflexivity.
  destruct (rejected_type_is_drained only_png init_state 0 "doc" text_file
              "image/png" H1 H2 H3 H4) as (Te & _ & Tf & _).
  exact (conj H1 (conj H2 (conj H4 (conj Te Tf)))).
Defined.

(** C10 on a body with a file and a text field, parsed without options. *)
Lemma no_file_handler_on_plain_options :
  fileCount no_options = None
  /\ uploadDir no_options = None
  /\ onFile no_options = false
  /\ settled (form_route no_options
                [ PartFile "doc" text_file [two_bytes] false;
                  PartField "a" "1" whole ]) =
       Some (Success (BodyForm [("a", VText "1")])).
Proof.
  destruct (no_file_handler_without_options no_options
              [ PartFile "doc" text_file [two_bytes] false;
                PartField "a" "1" whole ] eq_refl eq_refl eq_refl)
    as (_ & _ & _ & T).
  exact (conj eq_refl (conj eq_refl (conj eq_refl (T eq_refl)))).
Defined.

(** X1 on a body with two long leaves, one in an array and one in a nested
    object, next to a short one. *)
Lemma json_two_long_leaves :
  maxFieldSize limit_fields_5 = Some 5
  /\
  length (fst (json_callback limit_fields_5
                 (JsonParsed
                    (JObj [ ("a", JArr [JStr ten_x; JStr "ok"]);
                            ("b", JObj [("c", JStr ten_x)]) ])))) = 2%nat.
Proof.
  destruct (json_one_violation_per_long_leaf limit_fields_5
              (JObj [ ("a", JArr [JStr ten_x; JStr "ok"]);
                      ("b", JObj [("c", JStr ten_x)]) ]) 5 eq_refl)
    as (_ & T & _).
  exact (conj eq_refl T).
Defined.

(** X3 on a text file of two chunks handed to [onFile]. *)
Lemma handed_over_text_file :
  onFile hand_over = true
  /\ info_filename text_file <> EmptyString
  /\ mime_rejected hand_over (mkFile "a.txt" 0 "text/plain" None) = false
  /\ effects (run hand_over
                (file_trace 0 "doc" text_file [two_bytes; one_byte] false)
                init_state) =
       [OnFile "doc" (mkFile "a.txt" 0 "text/plain" None) 0]
  /\ data (run hand_over
             (file_trace 0 "doc" text_file [two_bytes; one_byte] false)
             init_state) =
       [("doc", VFile (mkFile "a.txt" 1 "text/plain" None))].
Proof.
  assert (Hname : info_filename text_file <> EmptyString) by discriminate.
  destruct (accepted_file_is_handed_over hand_over init_state 0 "doc"
              text_file [two_bytes; one_byte] false eq_refl Hname eq_refl)
    as (Te & _ & _ & Td).
  exact (conj eq_refl (conj Hname (conj eq_refl
           (conj Te (proj2 (Td eq_refl)))))).
Defined.

(** X4 on the same file stored by a parser with a ceiling of one file. *)
Lemma stored_text_file :
  has_file_handler one_file_at_most = true
  /\ onFile one_file_at_most = false
  /\ info_filename text_file <> EmptyString
  /\ mime_rejected one_file_at_most (mkFile "a.txt" 0 "text/plain" None)
       = false
  /\ effects (run one_file_at_most
                (stored_file_trace 0 "doc" text_file [two_bytes; one_byte]
                   false) init_state) =
       [Mkdir "/tmp"; Pipe 0 "/tmp/doc_0"]
  /\ data (run one_file_at_most
             (stored_file_trace 0 "doc" text_file [two_bytes; one_byte]
                false) init_state) =
       [("doc", VFile (mkFile "a.txt" 1 "text/plain" (Some "/tmp/doc_0")))].
Proof.
  assert (Hname : info_filename text_file <> EmptyString) by discriminate.
  destruct (accepted_file_is_stored one_file_at_most init_state 0 "doc"
              text_file [two_bytes; one_byte] false eq_refl eq_refl Hname
              eq_refl)
    as (Te & _ & _ & Td).
  exact (conj eq_refl (conj eq_refl (conj Hname (conj eq_refl
           (conj Te (proj2 (Td eq_refl))))))).
Defined.

(** X5 on a stream that is open while a field and another file arrive. *)
Lemma other_streams_leave_descriptor :
  Forall (fun ev => stream_of ev <> Some 0%nat)
    [ EvField "a" "1" whole; EvFile 1 "other" text_file;
      EvData 1 two_bytes ]
  /\ listeners
       (run hand_over
          [ EvField "a" "1" whole; EvFile 1 "other" text_file;
            EvData 1 two_bytes ]
          (step hand_over init_state (EvFile 0 "doc" text_file))) !! 0%nat =
     listeners (step hand_over init_state (EvFile 0 "doc" text_file)) !! 0%nat.
Proof.
  assert (H : Forall (fun ev => stream_of ev <> Some 0%nat)
                [ EvField "a" "1" whole; EvFile 1 "other" text_file;
                  EvData 1 two_bytes ]).
  { repeat (apply List.Forall_cons; [discriminate|]). apply List.Forall_nil. }
  exact (conj H (proj1 (streams_do_not_interfere hand_over 0 _
                          (step hand_over init_state
                             (EvFile 0 "doc" text_file)) H))).
Defined.

(** X6 on a body with a file, parsed with an [onFile] handler. *)
Lemma nothing_written_with_handler :
  onFile hand_over = true
  /\ Forall (fun e => writes_to_disk e = false)
       (effects (form_route hand_over
                   [PartFile "doc" text_file [two_bytes] false]))
  /\ ids (form_route hand_over
            [PartFile "doc" text_file [two_bytes] false]) = 0%nat.
Proof.
  destruct (proj2 (onFile_never_writes hand_over eq_refl)
              [PartFile "doc" text_file [two_bytes] false])
    as (Tf & _ & Ti).
  exact (conj eq_refl (conj Tf Ti)).
Defined.

(** X8 with a size parser that makes nothing of any string. *)
Lemma zero_is_no_limit :
  bytes_parse_str EmptyString = None
  /\ parse_limit (Some (SizeNum 0)) = None
  /\ parse_limit (Some (SizeNum 5)) = Some 5.
Proof.
  destruct (absent_limit_is_no_limit (E := journal) no_options eq_refl)
    as (_ & _ & Tn & _).
  exact (conj eq_refl (conj (Tn 0) (Tn 5))).
Defined.

(** X9 on a body with a long name two levels down and a long note. *)
Lemma nested_plain_keys_are_named :
  maxFieldSize limit_fields_5 = Some 5
  /\ plain_keys
       (JObj [ ("user", JObj [("name", JStr ten_x); ("bio", JStr "ok")]);
               ("note", JStr ten_x) ]) = true
  /\ fst (json_callback limit_fields_5
            (JsonParsed
               (JObj [ ("user", JObj [("name", JStr ten_x);
                                      ("bio", JStr "ok")]);
                       ("note", JStr ten_x) ]))) =
       [field_size_exceeded "name" 5; field_size_exceeded "note" 5].
Proof.
  exact (conj eq_refl (conj eq_refl
           (plain_keys_are_named limit_fields_5
              (JObj [ ("user", JObj [("name", JStr ten_x);
                                     ("bio", JStr "ok")]);
                      ("note", JStr ten_x) ]) 5 eq_refl eq_refl))).
Defined.


(** X11 on a form of two fields, the second truncated, parsed with a
    ceiling on files. *)
Lemma text_only_form :
  forallb is_text_field [PartField "a" "1" whole; PartField "b" "2" cut]
    = true
  /\ settled (form_route one_file_at_most
                [PartField "a" "1" whole; PartField "b" "2" cut]) =
       Some (Failure [field_size_exceeded "b" 0]).
Proof.
  destruct (text_only_body one_file_at_most
              [PartField "a" "1" whole; PartField "b" "2" cut] eq_refl)
    as (_ & _ & _ & T).
  exact (conj eq_refl T).
Defined.


